(** * CineGen storyboarder: image normalizer, generation client, orchestrator

    A shallow embedding of [src/services/geminiService.ts] and of the
    handlers of [src/App.tsx], with the properties the specification states
    about them.

    Conventions.
    - A JavaScript object is a finite map from property names to values
      ([gmap string json]); a missing property reads as [None]
      ([undefined]).
    - A promise is modelled by the value it settles with ([Settled]); an
      awaited promise is taken to settle.
    - Everything the code obtains from its runtime (image decoding, the 2d
      drawing context, [Math.random], [JSON.parse], the remote model) is a
      field of an environment record, so that the functions below are the
      code of the repository and nothing else. *)

From Stdlib Require Import ZArith String Ascii List Lia Bool.
From Stdlib Require Import Floats.PrimFloat.
From stdpp Require Import gmap strings list fin_maps.
From Stdlib Require DecimalString DecimalNat.

Set Warnings "-register-all".
Local Open Scope string_scope.
Local Open Scope Z_scope.

(* ===================================================================== *)
(** ** JavaScript values *)
(* ===================================================================== *)

Module JS.

(** The values [JSON.parse] can produce.  Numbers are IEEE doubles. *)
Inductive json : Type :=
  | JNull
  | JBool (b : bool)
  | JNum (f : float)
  | JStr (s : string)
  | JArr (items : list json)
  | JObj (props : gmap string json).

(** [ToBoolean] on a value; [None] stands for [undefined]. *)
Definition truthy (v : option json) : bool :=
  match v with
  | None => false
  | Some JNull => false
  | Some (JBool b) => b
  | Some (JNum f) => negb (PrimFloat.is_zero f || PrimFloat.is_nan f)
  | Some (JStr s) => negb (String.eqb s "")
  | Some (JArr _) => true
  | Some (JObj _) => true
  end.

(** [a === b].  Arrays and objects compare by reference, which the model
    does not represent: they answer [false]. *)
Definition strict_equal (a b : option json) : bool :=
  match a, b with
  | None, None => true
  | Some JNull, Some JNull => true
  | Some (JBool x), Some (JBool y) => Bool.eqb x y
  | Some (JNum x), Some (JNum y) => PrimFloat.eqb x y
  | Some (JStr x), Some (JStr y) => String.eqb x y
  | _, _ => false
  end.

(** What a thrown value shows to a handler that reads [error.message]:
    a string, or nothing when the value has no such property.  The errors
    of the runtime and of the SDK carry a string there; a [message] of
    another type is not modelled. *)
Record Thrown : Type := mkThrown { message : option string }.

(** [new Error(msg)] *)
Definition Error (msg : string) : Thrown := {| message := Some msg |}.

(** [undefined] and [null]: the two values no property of which can be
    read. *)
Inductive Nullish : Type := Undefined | Null.

(** Any value a promise of the runtime can be rejected with: [undefined]
    or [null], or a value whose [message] can be read. *)
Inductive Raised : Type :=
  | Bare (n : Nullish)
  | Value (t : Thrown).

(** A text that is not empty: its first character and what follows. *)
Record NonEmpty : Type := { lead : Ascii.ascii; trail : string }.

Definition as_string (t : NonEmpty) : string := String (lead t) (trail t).

(** The outcome an awaited promise settles with, the rejection being of
    type [E]. *)
Inductive Outcome (E A : Type) : Type :=
  | Fulfilled (a : A)
  | Rejected (e : E).
Arguments Fulfilled {E A} a.
Arguments Rejected {E A} e.

(** The outcome of a promise of the repository's own code, which rejects
    with error objects only. *)
Abbreviation Settled := (Outcome Thrown).

(** The same outcome, among those of the promises of the runtime. *)
Definition raised {A : Type} (p : Settled A) : Outcome Raised A :=
  match p with
  | Fulfilled a => Fulfilled a
  | Rejected e => Rejected (Value e)
  end.

(** [s.substring(n)]: the characters of [s] from index [n] to the end. *)
Definition substring_from (n : nat) (s : string) : string :=
  String.substring n (String.length s - n) s.

(** [!s] for [s : string | null]. *)
Definition js_not (s : option string) : bool :=
  match s with
  | None => true
  | Some v => String.eqb v ""
  end.

(** [a || b] where [a] is a string or [undefined]. *)
Definition or_else (a : option string) (b : string) : string :=
  match a with
  | Some v => if String.eqb v "" then b else v
  | None => b
  end.

End JS.
Import JS.

(* ===================================================================== *)
(** ** Image normalizer: [resizeImage] *)
(* ===================================================================== *)

Module Normalizer.

(** A decoded image: [img.width] and [img.height]. *)
Record Image : Type := { width : Z; height : Z }.

(** The browser, as [resizeImage] sees it. *)
Record Browser : Type := {
  (** setting [img.src]: [Some] when [onload] fires, [None] when
      [onerror] fires *)
  decode : string -> option Image;
  (** [canvas.getContext('2d')] on a canvas of the given size is not
      null *)
  getContext2d : Z -> Z -> bool
}.

(** What the promise of [resizeImage] resolves with. *)
Inductive Resolution : Type :=
  (** [canvas.toDataURL(type, quality)] of a canvas of the given size on
      which the source image was drawn over the whole area; the quality is
      in hundredths *)
  | CanvasDataURL (canvas_width canvas_height : Z) (type : string)
                  (quality : Z)
  (** the input string itself *)
  | Unchanged (base64Str : string).

(** [Math.round(a / b)] for integers [0 <= a], [0 < b]: the nearest
    integer, a tie going up.  The double division is exact enough for the
    rounding to agree with the rational one as long as [a] and [b] stay far
    below [2^53], which image sizes do. *)
Definition Math_round_div (a b : Z) : Z := Z.div (2 * a + b) (2 * b).

(** The body of [onload] up to the creation of the canvas. *)
Definition fit (img : Image) (maxWidth maxHeight : Z) : Z * Z :=
  let width := width img in
  let height := height img in
  if height <? width then
    if maxWidth <? width then
      (maxWidth, Math_round_div (height * maxWidth) width)
    else (width, height)
  else
    if maxHeight <? height then
      (Math_round_div (width * maxHeight) height, maxHeight)
    else (width, height).

Definition resizeImage (b : Browser) (base64Str : string)
    (maxWidth maxHeight : Z) : Settled Resolution :=
  match decode b base64Str with
  | Some img =>
      let '(width, height) := fit img maxWidth maxHeight in
      if getContext2d b width height then
        Fulfilled (CanvasDataURL width height "image/jpeg" 80)
      else
        Fulfilled (Unchanged base64Str)
  | None => Fulfilled (Unchanged base64Str)
  end.

(** The default arguments of [resizeImage]. *)
Definition default_max : Z := 1024.

(** Pixel size of the image a resolution denotes: the size of the canvas,
    or the size the unchanged string decodes to. *)
Definition output_size (b : Browser) (r : Resolution) : option (Z * Z) :=
  match r with
  | CanvasDataURL w h _ _ => Some (w, h)
  | Unchanged s =>
      match decode b s with
      | Some img => Some (width img, height img)
      | None => None
      end
  end.

End Normalizer.
Import Normalizer.

(* ===================================================================== *)
(** ** Generation client: [generateStoryboardFrame] *)
(* ===================================================================== *)

Module Client.

(** The part of the response of [ai.models.generateContent] the client
    reads.  Every property is optional in the SDK's types. *)
Record Blob : Type := { mimeType : option string; data : option string }.
Record Part : Type := { text : option string; inlineData : option Blob }.
Record Content : Type := { parts : option (list Part) }.
Record Candidate : Type := { content : option Content }.
Record GenerateContentResponse : Type :=
  { candidates : option (list Candidate) }.

(** What the client runs on.  The request is built from the normalized
    image and from the shot; the remote model may answer anything, so the
    call is a function of both and of the rank of the call. *)
Record Service : Type := {
  browser : Browser;
  generateContent :
    nat -> Resolution -> gmap string json
    -> Outcome Raised GenerateContentResponse;
  (** the engine's message for reading a property of [undefined] *)
  TypeError_read_of_undefined : string;
  (** the engine's message for iterating over [undefined] *)
  TypeError_not_iterable : string;
  (** the engine's message for reading [message] of [undefined] or of
      [null] *)
  TypeError_read_message_of : Nullish -> NonEmpty
}.

(** [await p] followed by the rest of a [try] block: a rejection leaves the
    block. *)
Definition await {E A B : Type} (p : Outcome E A) (k : A -> Outcome E B)
    : Outcome E B :=
  match p with
  | Fulfilled a => k a
  | Rejected e => Rejected e
  end.

(** [part.inlineData && part.inlineData.data] is truthy. *)
Definition carries_image (part : Part) : bool :=
  match inlineData part with
  | Some blob => negb (js_not (data blob))
  | None => false
  end.

(** The [for (const part of parts)] loop: the data URI of the first part
    that carries image data. *)
Fixpoint first_image (parts : list Part) : option string :=
  match parts with
  | [] => None
  | part :: rest =>
      match inlineData part with
      | Some blob =>
          match data blob with
          | Some d =>
              if String.eqb d "" then first_image rest
              else Some ("data:image/png;base64," ++ d)%string
          | None => first_image rest
          end
      | None => first_image rest
      end
  end.

Definition no_image_message : string :=
  "No image data found in response. The model may have blocked the request or returned only text.".

(** Lines 104-115: the search of the response, which returns the data URI
    or throws. *)
Definition read_response (sv : Service) (response : GenerateContentResponse)
    : Settled string :=
  match candidates response with
  | Some (first :: _) =>
      match content first with
      | None => Rejected (Error (TypeError_read_of_undefined sv))
      | Some c =>
          match parts c with
          | None => Rejected (Error (TypeError_not_iterable sv))
          | Some ps =>
              match first_image ps with
              | Some uri => Fulfilled uri
              | None => Rejected (Error no_image_message)
              end
          end
      end
  | _ => Rejected (Error no_image_message)
  end.

(** The [try] block: it returns the data URI, or is left with whatever
    was thrown in it or rejected the awaited call. *)
Definition attempt (sv : Service) (call : nat)
    (referenceImageBase64 : string) (shot : gmap string json)
    : Outcome Raised string :=
  await
    (raised
       (resizeImage (browser sv) referenceImageBase64 default_max default_max))
    (fun optimizedImage =>
  await (generateContent sv call optimizedImage shot)
    (fun response =>
  raised (read_response sv response))).

(** The [catch] block: [throw new Error(error.message || "Failed to
    generate image")].  When [error] is [undefined] or [null], reading
    [error.message] throws the engine's TypeError, and that is what leaves
    the block. *)
Definition rethrow (sv : Service) (error : Raised) : Thrown :=
  match error with
  | Bare n => Error (as_string (TypeError_read_message_of sv n))
  | Value t => Error (or_else (message t) "Failed to generate image")
  end.

Definition generateStoryboardFrame (sv : Service) (call : nat)
    (referenceImageBase64 : string) (shot : gmap string json)
    : Settled string :=
  match attempt sv call referenceImageBase64 shot with
  | Fulfilled uri => Fulfilled uri
  | Rejected error => Rejected (rethrow sv error)
  end.


End Client.
Import Client.

(* ===================================================================== *)
(** ** Orchestrator: the state and the handlers of [App] *)
(* ===================================================================== *)

Module App.

(** A shot record, as the handlers build and patch it. *)
Abbreviation object := (gmap string json).

(** [enum GenerationStatus]: a string enum. *)
Inductive GenerationStatus : Type := IDLE | PENDING | SUCCESS | ERROR.

Definition status_value (g : GenerationStatus) : json :=
  match g with
  | IDLE => JStr "IDLE"
  | PENDING => JStr "PENDING"
  | SUCCESS => JStr "SUCCESS"
  | ERROR => JStr "ERROR"
  end.

(** What the page runs on. *)
Record World : Type := {
  service : Service;
  (** [JSON.parse]: [None] when it throws a [SyntaxError] *)
  JSON_parse : string -> option json;
  (** the text [Math.random().toString(36)] evaluates to, at the k-th call
      of [generateId] of a run *)
  Math_random_base36 : nat -> string;
  (** [process.env.API_KEY] *)
  API_KEY : option string
}.

(** [const generateId = () => Math.random().toString(36).substring(7)] *)
Definition generateId (w : World) (k : nat) : string :=
  substring_from 7 (Math_random_base36 w k).

(** [!!process.env.API_KEY] *)
Definition isApiKeyAvailable (w : World) : bool := negb (js_not (API_KEY w)).

(** The [useState] cells of the component. *)
Record AppState : Type := {
  refImage : option string;
  jsonInput : string;
  shots : list object;
  isGenerating : bool;
  validationError : option string
}.

Definition setShots (f : list object -> list object) (st : AppState)
    : AppState :=
  {| refImage := refImage st; jsonInput := jsonInput st;
     shots := f (shots st); isGenerating := isGenerating st;
     validationError := validationError st |}.

Definition setIsGenerating (b : bool) (st : AppState) : AppState :=
  {| refImage := refImage st; jsonInput := jsonInput st;
     shots := shots st; isGenerating := b;
     validationError := validationError st |}.

Definition setValidationError (e : option string) (st : AppState)
    : AppState :=
  {| refImage := refImage st; jsonInput := jsonInput st;
     shots := shots st; isGenerating := isGenerating st;
     validationError := e |}.

(** What a handler does besides writing the state, in the order it does
    it. *)
Inductive Effect : Type :=
  | Alert (msg : string)
  (** [generateStoryboardFrame(refImage, shot)] is called *)
  | Invoke (call : nat) (referenceImage : string) (shot : object)
  (** the awaited call has settled and the record was patched *)
  | Settle (call : nat) (outcome : Settled string)
  (** [await new Promise(resolve => setTimeout(resolve, ms))] *)
  | Pause (ms : Z).

Record Session : Type := { ui : AppState; trace : list Effect }.

Definition write (f : AppState -> AppState) (s : Session) : Session :=
  {| ui := f (ui s); trace := trace s |}.

Definition emit (es : list Effect) (s : Session) : Session :=
  {| ui := ui s; trace := trace s ++ es |}.

(** [item.key] for an element of the parsed array: [None] when the read
    throws (the element is [null]); a number, a boolean, a string or an
    array has no property of the names read here. *)
Definition read (item : json) (key : string) : option (option json) :=
  match item with
  | JNull => None
  | JObj props => Some (props !! key)
  | _ => Some None
  end.

(** [parsed.every(item => item.shot_type && item.prompt)]: [None] when the
    callback throws. *)
Fixpoint every_shot (parsed : list json) : option bool :=
  match parsed with
  | [] => Some true
  | item :: rest =>
      match read item "shot_type" with
      | None => None
      | Some shot_type =>
          if truthy shot_type then
            match read item "prompt" with
            | None => None
            | Some prompt =>
                if truthy prompt then every_shot rest else Some false
            end
          else Some false
      end
  end.

Definition not_an_array_message : string :=
  "JSON must be an array of shot objects.".
Definition missing_fields_message : string :=
  "Each shot must have 'shot_type' and 'prompt' fields.".
Definition invalid_json_message : string := "Invalid JSON format.".
Definition missing_key_message : string :=
  "API Key missing in environment (process.env.API_KEY).".
Definition no_reference_message : string :=
  "Please upload a Character Reference Image first.".

Definition validateAndParseJson (w : World) (st : AppState)
    : AppState * option (list json) :=
  match JSON_parse w (jsonInput st) with
  | Some (JArr parsed) =>
      match every_shot parsed with
      | Some true => (setValidationError None st, Some parsed)
      | Some false =>
          (setValidationError (Some missing_fields_message) st, None)
      | None => (setValidationError (Some invalid_json_message) st, None)
      end
  | Some _ => (setValidationError (Some not_an_array_message) st, None)
  | None => (setValidationError (Some invalid_json_message) st, None)
  end.

(** [{...config}]: the own properties of an element.  Validation lets only
    objects through. *)
Definition spread (config : json) : object :=
  match config with
  | JObj props => props
  | _ => ∅
  end.

(** [{ ...config, id: generateId(), status: GenerationStatus.PENDING }] *)
Definition initialShot (w : World) (k : nat) (config : json) : object :=
  <["status" := status_value PENDING]>
    (<["id" := JStr (generateId w k)]> (spread config)).

(** [s.id === shot.id] *)
Definition same_id (s shot : object) : bool :=
  strict_equal (s !! "id") (shot !! "id").

(** [{ ...o, key: v }] where [v] may be [undefined]: a property set to
    [undefined] reads like a missing one. *)
Definition assign (key : string) (v : option json) (o : object) : object :=
  match v with
  | Some x => <[key := x]> o
  | None => delete key o
  end.

(** The two updaters passed to [setShots] in the loop. *)
Definition resolve (shot : object) (outcome : Settled string)
    (prev : list object) : list object :=
  match outcome with
  | Fulfilled imageUrl =>
      (fun s =>
         if same_id s shot
         then <["imageUrl" := JStr imageUrl]>
                (<["status" := status_value SUCCESS]> s)
         else s) <$> prev
  | Rejected error =>
      (fun s =>
         if same_id s shot
         then assign "error" (JStr <$> message error)
                (<["status" := status_value ERROR]> s)
         else s) <$> prev
  end.

(** What either updater does to one record. *)
Definition patched (shot : object) (outcome : Settled string) (s : object)
    : object :=
  if same_id s shot then
    match outcome with
    | Fulfilled imageUrl =>
        <["imageUrl" := JStr imageUrl]> (<["status" := status_value SUCCESS]> s)
    | Rejected error =>
        assign "error" (JStr <$> message error)
          (<["status" := status_value ERROR]> s)
    end
  else s.

(** The effects of one turn of the [for] loop. *)
Definition turn (w : World) (image : string) (i : nat) (shot : object)
    : list Effect :=
  [Invoke i image shot;
   Settle i (generateStoryboardFrame (service w) i image shot);
   Pause 1000].

(** One turn of the [for] loop: the call, the patch once the call has
    settled, the pause. *)
Definition iteration (w : World) (image : string) (i : nat) (shot : object)
    (s : Session) : Session :=
  let outcome := generateStoryboardFrame (service w) i image shot in
  emit (turn w image i shot) (write (setShots (resolve shot outcome)) s).

(** [for (let i = ...; i < initialShots.length; i++)], from index [i] on. *)
Fixpoint loop (w : World) (image : string) (remaining : list object)
    (i : nat) (s : Session) : Session :=
  match remaining with
  | [] => s
  | shot :: rest => loop w image rest (S i) (iteration w image i shot s)
  end.

(** [handleGenerate] up to the loop: the session it leaves, and the image
    and the records the loop is about to run on, if it is. *)
Definition handleGenerate_start (w : World) (s : Session)
    : Session * option (string * list object) :=
  match refImage (ui s) with
  | Some image =>
      if String.eqb image "" then (emit [Alert no_reference_message] s, None)
      else
        match validateAndParseJson w (ui s) with
        | (st, None) => (write (fun _ => st) s, None)
        | (st, Some shotConfigs) =>
            if negb (isApiKeyAvailable w) then
              (write (fun _ => setValidationError (Some missing_key_message) st)
                 s, None)
            else
              let initialShots := imap (initialShot w) shotConfigs in
              (write
                 (fun _ =>
                    setShots (fun _ => initialShots) (setIsGenerating true st))
                 s,
               Some (image, initialShots))
        end
  | None => (emit [Alert no_reference_message] s, None)
  end.

(** [handleGenerate], run to its end with no other handler in between. *)
Definition handleGenerate (w : World) (s : Session) : Session :=
  match handleGenerate_start w s with
  | (s1, Some (image, initialShots)) =>
      write (setIsGenerating false) (loop w image initialShots 0 s1)
  | (s1, None) => s1
  end.

(** [handleGenerate] stopped after the first [n] turns of its loop. *)
Definition handleGenerate_turns (n : nat) (w : World) (s : Session)
    : Session :=
  match handleGenerate_start w s with
  | (s1, Some (image, initialShots)) =>
      loop w image (take n initialShots) 0 s1
  | (s1, None) => s1
  end.

Definition handleClear (s : Session) : Session :=
  write (fun st => setIsGenerating false (setShots (fun _ => []) st)) s.

(** The [disabled] property of the Generate button. *)
Definition generate_disabled (w : World) (st : AppState) : bool :=
  js_not (refImage st) || String.eqb (jsonInput st) ""
  || negb (isApiKeyAvailable w).

(** [s.status] is one of the two final values. *)
Definition resolved (s : object) : bool :=
  strict_equal (s !! "status") (Some (status_value SUCCESS))
  || strict_equal (s !! "status") (Some (status_value ERROR)).

Definition pending (s : object) : bool :=
  strict_equal (s !! "status") (Some (status_value PENDING)).

(** What the turns of the loop on [remaining], from index [i] on, do to
    one record of the list. *)
Fixpoint patches (w : World) (image : string) (remaining : list object)
    (i : nat) (s : object) : object :=
  match remaining with
  | [] => s
  | shot :: rest =>
      patches w image rest (S i)
        (patched shot (generateStoryboardFrame (service w) i image shot) s)
  end.

(** An element of the parsed array that passes the check of validation. *)
Definition is_shot (item : json) : Prop :=
  exists props, item = JObj props /\
    truthy (props !! "shot_type") = true /\
    truthy (props !! "prompt") = true.

(** The ids a run of [n] shots draws. *)
Definition run_ids (w : World) (n : nat) : list string :=
  generateId w <$> seq 0 n.

(** The calls of a trace, in order. *)
Definition calls (t : list Effect) : list object :=
  flat_map (fun e => match e with Invoke _ _ shot => [shot] | _ => [] end) t.

End App.
Import App.

(* ===================================================================== *)
(** ** Sample environments *)
(* ===================================================================== *)

Module Demo.

Definition reference : string := "data:image/png;base64,iVBORw0KGgo=".

(** A browser that decodes every string to an image of the given size. *)
Definition browser_of (w h : Z) (context : bool) : Browser :=
  {| decode := fun _ => Some {| width := w; height := h |};
     getContext2d := fun _ _ => context |}.

(** A browser in which no string decodes. *)
Definition browser_undecodable : Browser :=
  {| decode := fun _ => None; getContext2d := fun _ _ => true |}.

(** The messages of V8 for reading [message] of [undefined] and of
    [null]. *)
Definition v8_read_message_of (n : Nullish) : NonEmpty :=
  match n with
  | Undefined =>
      {| lead := "C"%char;
         trail := "annot read properties of undefined (reading 'message')" |}
  | Null =>
      {| lead := "C"%char;
         trail := "annot read properties of null (reading 'message')" |}
  end.

(** A service on a browser that decodes every string to a 640x480 image,
    with the messages of V8 for the type errors, and whose remote call
    settles as given whatever the request. *)
Definition service_settling (answer : Settled GenerateContentResponse)
    : Service :=
  {| browser := browser_of 640 480 true;
     generateContent := fun _ _ _ => raised answer;
     TypeError_read_of_undefined :=
       "Cannot read properties of undefined (reading 'parts')";
     TypeError_not_iterable := "parts is not iterable";
     TypeError_read_message_of := v8_read_message_of |}.

(** A response made of one candidate with the given parts. *)
Definition response_of (ps : list Part) : GenerateContentResponse :=
  {| candidates := Some [ {| content := Some {| parts := Some ps |} |} ] |}.

Definition text_part (t : string) : Part :=
  {| text := Some t; inlineData := None |}.

Definition image_part (d : string) : Part :=
  {| text := None;
     inlineData := Some {| mimeType := Some "image/png"; data := Some d |} |}.

Definition wide_shot : gmap string json :=
  <["prompt" := JStr "A"]> (<["shot_type" := JStr "Wide Shot"]> ∅).

Definition close_up : gmap string json :=
  <["prompt" := JStr "B"]>
    (<["aspect_ratio" := JStr "16:9"]> (<["shot_type" := JStr "Close Up"]> ∅)).

(** A text between double quotes. *)
Definition quoted (t : string) : string :=
  (String (Ascii.ascii_of_nat 34) t ++ String (Ascii.ascii_of_nat 34) "")%string.

(** The text of a list of two shots, the first without [aspect_ratio]. *)
Definition shots_text : string :=
  ("[{" ++ quoted "shot_type" ++ ":" ++ quoted "Wide Shot" ++ ","
        ++ quoted "prompt" ++ ":" ++ quoted "A" ++ "},{"
        ++ quoted "shot_type" ++ ":" ++ quoted "Close Up" ++ ","
        ++ quoted "aspect_ratio" ++ ":" ++ quoted "16:9" ++ ","
        ++ quoted "prompt" ++ ":" ++ quoted "B" ++ "}]")%string.

(** The text of the list of the first shot alone. *)
Definition one_shot_text : string :=
  ("[{" ++ quoted "shot_type" ++ ":" ++ quoted "Wide Shot" ++ ","
        ++ quoted "prompt" ++ ":" ++ quoted "A" ++ "}]")%string.

(** The text of a list whose only shot has no [prompt]. *)
Definition incomplete_text : string :=
  ("[{" ++ quoted "shot_type" ++ ":" ++ quoted "Wide Shot" ++ "}]")%string.

(** What [JSON.parse] answers on the texts above; the other texts used
    below are not JSON. *)
Definition parse (input : string) : option json :=
  if String.eqb input shots_text then
    Some (JArr [JObj wide_shot; JObj close_up])
  else if String.eqb input one_shot_text then
    Some (JArr [JObj wide_shot])
  else if String.eqb input incomplete_text then
    Some (JArr [JObj (<["shot_type" := JStr "Wide Shot"]> ∅)])
  else None.

(** A remote model that fails on the call of rank [failing] with the given
    message and answers every other call with an image. *)
Definition service_failing_at (failing : nat) (msg : string) : Service :=
  {| browser := browser_of 640 480 true;
     generateContent := fun call _ _ =>
       if Nat.eqb call failing then Rejected (Value (Error msg))
       else Fulfilled (response_of [image_part "QUJD"]);
     TypeError_read_of_undefined :=
       "Cannot read properties of undefined (reading 'parts')";
     TypeError_not_iterable := "parts is not iterable";
     TypeError_read_message_of := v8_read_message_of |}.

(** Two draws whose texts differ from index 7 on. *)
Definition distinct_draws (k : nat) : string :=
  match k with
  | O => "0.4fzyo82mvyr"
  | _ => "0.fjq8eg5y3us"
  end.

(** The draws 0.5 and 0.25: their texts in base 36 are ["0.i"] and
    ["0.9"]. *)
Definition short_draws (k : nat) : string :=
  match k with
  | O => "0.i"
  | _ => "0.9"
  end.

Definition world (sv : Service) (draws : nat -> string) : World :=
  {| service := sv; JSON_parse := parse; Math_random_base36 := draws;
     API_KEY := Some "key" |}.

(** A page with the reference image loaded, the given text in the shot
    list, and no result yet. *)
Definition session (input : string) : Session :=
  {| ui := {| refImage := Some reference; jsonInput := input; shots := [];
              isGenerating := false; validationError := None |};
     trace := [] |}.

End Demo.

(* ===================================================================== *)
(** ** What the normalizer resolves with, as an image *)
(* ===================================================================== *)

Module Encoding.

(** Whether a resolution is the data of an image.  [canvas.toDataURL]
    answers the text ["data:,"] for a canvas without pixels (a side that is
    0) and the encoded image otherwise; the unchanged input is an image
    when it decodes. *)
Definition encodes_image (b : Browser) (r : Resolution) : bool :=
  match r with
  | CanvasDataURL w h _ _ => (0 <? w) && (0 <? h)
  | Unchanged s =>
      match decode b s with
      | Some _ => true
      | None => false
      end
  end.

End Encoding.
Import Encoding.

(* ===================================================================== *)
(** ** The request of the client: the payload of the image *)
(* ===================================================================== *)

Module Request.

(** [s] without its prefix [p], when it starts with [p]. *)
Fixpoint strip_prefix (p s : string) : option string :=
  match p, s with
  | EmptyString, _ => Some s
  | String a p', String b s' =>
      if Ascii.eqb a b then strip_prefix p' s' else None
  | String _ _, EmptyString => None
  end.

(** The three texts the pattern [^data:image\/(png|jpeg|jpg);base64,]
    matches, in the order of its alternatives. *)
Definition header (type : string) : string :=
  ("data:image/" ++ type ++ ";base64,")%string.

(** [optimizedImage.replace(/^data:image\/(png|jpeg|jpg);base64,/, '')] *)
Definition cleanBase64 (optimizedImage : string) : string :=
  match strip_prefix (header "png") optimizedImage with
  | Some rest => rest
  | None =>
      match strip_prefix (header "jpeg") optimizedImage with
      | Some rest => rest
      | None =>
          match strip_prefix (header "jpg") optimizedImage with
          | Some rest => rest
          | None => optimizedImage
          end
      end
  end.

End Request.
Import Request.

(* ===================================================================== *)
(** ** The result card: [ShotCard] *)
(* ===================================================================== *)

Module Card.

(** [shot.status === GenerationStatus.ERROR] and
    [shot.status === GenerationStatus.SUCCESS]; [isPending] is [pending]. *)
Definition isError (shot : object) : bool :=
  strict_equal (shot !! "status") (Some (status_value ERROR)).

Definition isSuccess (shot : object) : bool :=
  strict_equal (shot !! "status") (Some (status_value SUCCESS)).

(** What the image area of a card shows. *)
Inductive Shown : Type :=
  (** the spinner and "RENDERING SHOT..." *)
  | Spinner
  (** the alert icon and [{shot.error || "Generation Failed"}] *)
  | Failure (text : option json)
  (** [<img src={shot.imageUrl} ... />] *)
  | Picture (src : option json)
  (** a falsy number left by [isSuccess && shot.imageUrl && ...], which
      React renders as text *)
  | Stray (number : float).

(** [shot.error || "Generation Failed"] *)
Definition error_text (shot : object) : option json :=
  if truthy (shot !! "error") then shot !! "error"
  else Some (JStr "Generation Failed").

(** The three conditional blocks of the image area, in the order of the
    markup.  The third is [isSuccess && shot.imageUrl && (<img ... />)]:
    when [imageUrl] is falsy the block is that value, which shows nothing
    unless it is a number. *)
Definition image_area (shot : object) : list Shown :=
  ((if pending shot then [Spinner] else [])
   ++ (if isError shot then [Failure (error_text shot)] else [])
   ++ (if isSuccess shot then
         if truthy (shot !! "imageUrl") then [Picture (shot !! "imageUrl")]
         else match shot !! "imageUrl" with
              | Some (JNum f) => [Stray f]
              | _ => []
              end
       else []))%list.

(** The overlay with the download link and the fullscreen button is there
    when [isSuccess]. *)
Definition overlay (shot : object) : bool := isSuccess shot.

(** The text of a non-negative integer in a template literal: its
    decimal digits (as JavaScript prints integers below 10^21). *)
Definition decimal (n : nat) : string :=
  DecimalString.NilEmpty.string_of_uint (Nat.to_uint n).

(** [download={`shot-${index + 1}.png`}] *)
Definition download_name (index : nat) : string :=
  ("shot-" ++ decimal (index + 1) ++ ".png")%string.

(** A record that carries what its status announces: an image under the
    PNG prefix for success, a non-empty message for error. *)
Definition finished (shot : object) : Prop :=
  (shot !! "status" = Some (status_value SUCCESS) /\
   exists d, d <> "" /\
     shot !! "imageUrl" = Some (JStr ("data:image/png;base64," ++ d))) \/
  (shot !! "status" = Some (status_value ERROR) /\
   exists m, m <> "" /\ shot !! "error" = Some (JStr m)).

End Card.
Import Card.

(* ===================================================================== *)
(** ** The page: what [App] offers *)
(* ===================================================================== *)

Module Page.

(** [shots.length > 0 && !isGenerating]: the Clear Session button is
    rendered. *)
Definition clear_offered (st : AppState) : bool :=
  negb (Nat.eqb (length (shots st)) 0) && negb (isGenerating st).

(** [shots.length === 0 && !isGenerating]: the page shows "NO DAILIES
    AVAILABLE" instead of the grid. *)
Definition empty_state (st : AppState) : bool :=
  Nat.eqb (length (shots st)) 0 && negb (isGenerating st).

(** The total of the pauses of a trace, in milliseconds. *)
Definition paused (t : list Effect) : Z :=
  fold_right (fun e acc => match e with Pause ms => ms + acc | _ => acc end)
    0 t.

Definition setRefImage (r : option string) (st : AppState) : AppState :=
  {| refImage := r; jsonInput := jsonInput st; shots := shots st;
     isGenerating := isGenerating st;
     validationError := validationError st |}.

Definition setJsonInput (t : string) (st : AppState) : AppState :=
  {| refImage := refImage st; jsonInput := t; shots := shots st;
     isGenerating := isGenerating st;
     validationError := validationError st |}.

(** [reader.onload] of [handleImageUpload] and of [handleJsonUpload], with
    [result] for [event.target?.result]:
    [if (result) setRefImage(result)] and [if (result) setJsonInput(result)]. *)
Definition onReferenceRead (result : option string) (st : AppState)
    : AppState :=
  if js_not result then st else setRefImage result st.

Definition onJsonRead (result : option string) (st : AppState) : AppState :=
  match result with
  | Some t => if String.eqb t "" then st else setJsonInput t st
  | None => st
  end.

(** What the user can make the page do: a chosen image or JSON file has
    been read, the Clear link of the reference, an edit of the text, Reset
    Default, Generate, Clear Session. *)
Inductive UserEvent : Type :=
  | ReferenceRead (result : option string)
  | ReferenceCleared
  | JsonRead (result : option string)
  | JsonEdited (value : string)
  | JsonReset
  | GenerateClicked
  | ClearClicked.

(** The handler of each event; [default_text] is
    [JSON.stringify(DEFAULT_SHOT_LIST, null, 2)].  A run is taken to its
    end before the next event. *)
Definition dispatch (w : World) (default_text : string) (ev : UserEvent)
    (s : Session) : Session :=
  match ev with
  | ReferenceRead result => write (onReferenceRead result) s
  | ReferenceCleared => write (setRefImage None) s
  | JsonRead result => write (onJsonRead result) s
  | JsonEdited value => write (setJsonInput value) s
  | JsonReset => write (setJsonInput default_text) s
  | GenerateClicked => handleGenerate w s
  | ClearClicked => handleClear s
  end.

(** The state the component mounts with. *)
Definition mounted (default_text : string) : Session :=
  {| ui := {| refImage := None; jsonInput := default_text; shots := [];
              isGenerating := false; validationError := None |};
     trace := [] |}.

Definition after_events (w : World) (default_text : string)
    (evs : list UserEvent) : Session :=
  fold_left (fun s ev => dispatch w default_text ev s) evs
    (mounted default_text).

End Page.
Import Page.

(* ===================================================================== *)
(** ** More sample environments *)
(* ===================================================================== *)

Module Samples.

(** A page on which no reference image was loaded. *)
Definition session_without_reference (input : string) : Session :=
  {| ui := {| refImage := None; jsonInput := input; shots := [];
              isGenerating := false; validationError := None |};
     trace := [] |}.

(** A world without the credential. *)
Definition world_without_key : World :=
  {| service := Demo.service_failing_at 7 "503"; JSON_parse := Demo.parse;
     Math_random_base36 := Demo.distinct_draws; API_KEY := None |}.

(** A world whose parser answers the given value on every text. *)
Definition world_parsing (v : json) : World :=
  {| service := Demo.service_failing_at 7 "503";
     JSON_parse := fun _ => Some v;
     Math_random_base36 := Demo.distinct_draws; API_KEY := Some "key" |}.

(** A page that still shows the two records of an earlier run. *)
Definition session_with_results (input : string) : Session :=
  {| ui := {| refImage := Some Demo.reference; jsonInput := input;
              shots := [<["status" := JStr "SUCCESS"]> Demo.wide_shot;
                        <["status" := JStr "ERROR"]> Demo.close_up];
              isGenerating := false; validationError := Some "stale" |};
     trace := [] |}.

End Samples.

(* ===================================================================== *)
(** * Properties *)
(* ===================================================================== *)

(** ** Image normalizer *)

Lemma Math_round_div_spec (a b : Z) :
  0 < b ->
  2 * a - b < 2 * b * Math_round_div a b <= 2 * a + b.
Proof.
  intros Hb. unfold Math_round_div.
  pose proof (Z.mul_div_le (2 * a + b) (2 * b)) as Hle.
  pose proof (Z.mul_succ_div_gt (2 * a + b) (2 * b)) as Hgt.
  lia.
Qed.

Lemma Math_round_div_le (a b m : Z) :
  0 < b -> 0 <= a -> a <= b * m -> 0 <= Math_round_div a b <= m.
Proof.
  intros Hb Ha Hm. unfold Math_round_div. split.
  - apply Z.div_pos; lia.
  - apply Z.lt_succ_r. apply Z.div_lt_upper_bound; lia.
Qed.

(** The size computed for an image that exceeds a square maximum. *)
Lemma fit_large (img : Image) (m : Z) :
  0 <= width img -> 0 <= height img -> 0 < m ->
  m < Z.max (width img) (height img) ->
  Z.max (fst (fit img m m)) (snd (fit img m m)) = m /\
  2 * Z.abs (fst (fit img m m) * height img - width img * snd (fit img m m))
    <= Z.max (width img) (height img).
Proof.
  intros Hw Hh Hm Hbig. unfold fit.
  destruct (Z.ltb_spec (height img) (width img)) as [Hlt | Hge].
  - destruct (Z.ltb_spec m (width img)) as [Hm' | Hm']; [| lia].
    cbn [fst snd].
    pose proof (Math_round_div_spec (height img * m) (width img)) as Hs.
    pose proof (Math_round_div_le (height img * m) (width img) m) as Hl.
    assert (height img * m <= width img * m) by nia.
    split; [lia | nia].
  - destruct (Z.ltb_spec m (height img)) as [Hm' | Hm']; [| lia].
    cbn [fst snd].
    pose proof (Math_round_div_spec (width img * m) (height img)) as Hs.
    pose proof (Math_round_div_le (width img * m) (height img) m) as Hl.
    assert (width img * m <= height img * m) by nia.
    split; [lia | nia].
Qed.

Lemma fit_small (img : Image) (maxWidth maxHeight : Z) :
  width img < maxWidth -> height img < maxHeight ->
  fit img maxWidth maxHeight = (width img, height img).
Proof.
  intros Hw Hh. unfold fit.
  destruct (Z.ltb_spec (height img) (width img));
    [destruct (Z.ltb_spec maxWidth (width img))
    | destruct (Z.ltb_spec maxHeight (height img))];
    first [reflexivity | lia].
Qed.

Lemma resizeImage_fit (b : Browser) (base64Str : string) (img : Image)
    (maxWidth maxHeight : Z) :
  decode b base64Str = Some img ->
  resizeImage b base64Str maxWidth maxHeight =
    if getContext2d b (fst (fit img maxWidth maxHeight))
         (snd (fit img maxWidth maxHeight))
    then Fulfilled (CanvasDataURL (fst (fit img maxWidth maxHeight))
                      (snd (fit img maxWidth maxHeight)) "image/jpeg" 80)
    else Fulfilled (Unchanged base64Str).
Proof.
  intros Hd. unfold resizeImage. rewrite Hd.
  destruct (fit img maxWidth maxHeight) as [w h]. reflexivity.
Qed.

(** The fitted size of an image whose longer side exceeds its maximum and
    whose shorter side does not scale down to 0. *)
Lemma fit_clamps (img : Image) (maxWidth maxHeight : Z) :
  0 <= width img -> 0 <= height img -> 0 < maxWidth -> 0 < maxHeight ->
  (height img < width img /\ maxWidth < width img /\
   width img <= 2 * (height img * maxWidth)) \/
  (width img <= height img /\ maxHeight < height img /\
   height img <= 2 * (width img * maxHeight)) ->
  0 < fst (fit img maxWidth maxHeight) /\
  0 < snd (fit img maxWidth maxHeight) /\
  Z.max (fst (fit img maxWidth maxHeight)) (snd (fit img maxWidth maxHeight))
    = (if height img <? width img then maxWidth else maxHeight) /\
  2 * Z.abs (fst (fit img maxWidth maxHeight) * height img
             - width img * snd (fit img maxWidth maxHeight))
    <= Z.max (width img) (height img).
Proof.
  intros Hw Hh Hmw Hmh Hside. unfold fit.
  destruct (Z.ltb_spec (height img) (width img)) as [Hlt | Hge].
  - destruct Hside as [(_ & Hbig & Hthin) | (Hle & _)]; [| lia].
    destruct (Z.ltb_spec maxWidth (width img)) as [Hm' | Hm']; [| lia].
    cbn [fst snd].
    pose proof (Math_round_div_spec (height img * maxWidth) (width img)) as Hs.
    pose proof (Math_round_div_le (height img * maxWidth) (width img)
                  maxWidth) as Hl.
    assert (height img * maxWidth <= width img * maxWidth) by nia.
    assert (0 < Math_round_div (height img * maxWidth) (width img)) by nia.
    repeat split; [lia | assumption | lia | nia].
  - destruct Hside as [(Hlt & _) | (_ & Hbig & Hthin)]; [lia |].
    destruct (Z.ltb_spec maxHeight (height img)) as [Hm' | Hm']; [| lia].
    cbn [fst snd].
    pose proof (Math_round_div_spec (width img * maxHeight) (height img))
      as Hs.
    pose proof (Math_round_div_le (width img * maxHeight) (height img)
                  maxHeight) as Hl.
    assert (width img * maxHeight <= height img * maxHeight) by nia.
    assert (0 < Math_round_div (width img * maxHeight) (height img)) by nia.
    repeat split; [assumption | lia | lia | nia].
Qed.

(** C4, as amended.  Take a decoded image whose longer side exceeds the
    maximum for that side (the width against [maxWidth] when the image is
    wider than high, the height against [maxHeight] otherwise; both are
    1024 by default), whose shorter side does not scale down to 0 (the
    longer side is at most twice the shorter side times that maximum), and
    for which the canvas yields a drawing context.  Then the normalizer
    resolves with the JPEG (quality 0.8) of a canvas that has pixels, whose
    longer side is that maximum and whose sides are in the proportion of
    the input up to the rounding of the scaled side: with [w'], [h'] the
    new sides, [|w' * h - w * h'|] is at most half of the longer input
    side.  The sides and the maxima are taken below 2^26: there the
    double-precision division of the code followed by [Math.round] is the
    exact rounding of [fit]. *)
Theorem resizeImage_clamps_large (b : Browser) (base64Str : string)
    (img : Image) (maxWidth maxHeight : Z) :
  decode b base64Str = Some img ->
  0 <= width img < 2 ^ 26 -> 0 <= height img < 2 ^ 26 ->
  0 < maxWidth < 2 ^ 26 -> 0 < maxHeight < 2 ^ 26 ->
  (height img < width img /\ maxWidth < width img /\
   width img <= 2 * (height img * maxWidth)) \/
  (width img <= height img /\ maxHeight < height img /\
   height img <= 2 * (width img * maxHeight)) ->
  getContext2d b (fst (fit img maxWidth maxHeight))
    (snd (fit img maxWidth maxHeight)) = true ->
  exists w' h',
    resizeImage b base64Str maxWidth maxHeight
      = Fulfilled (CanvasDataURL w' h' "image/jpeg" 80) /\
    encodes_image b (CanvasDataURL w' h' "image/jpeg" 80) = true /\
    0 < w' /\ 0 < h' /\
    Z.max w' h' = (if height img <? width img then maxWidth else maxHeight) /\
    2 * Z.abs (w' * height img - width img * h')
      <= Z.max (width img) (height img).
Proof.
  intros Hd Hw Hh Hmw Hmh Hside Hctx.
  destruct (fit_clamps img maxWidth maxHeight) as (H1 & H2 & H3 & H4);
    [lia | lia | lia | lia | exact Hside |].
  exists (fst (fit img maxWidth maxHeight)),
    (snd (fit img maxWidth maxHeight)).
  rewrite (resizeImage_fit _ _ _ _ _ Hd), Hctx.
  split; [reflexivity |]. split.
  { cbn [encodes_image]. apply andb_true_iff.
    split; apply Z.ltb_lt; assumption. }
  repeat split; assumption.
Qed.

Lemma resizeImage_clamps_large_witness :
  exists w' h',
    resizeImage (Demo.browser_of 4000 3000 true) Demo.reference 1024 1024
      = Fulfilled (CanvasDataURL w' h' "image/jpeg" 80) /\
    encodes_image (Demo.browser_of 4000 3000 true)
      (CanvasDataURL w' h' "image/jpeg" 80) = true /\
    0 < w' /\ 0 < h' /\
    Z.max w' h' = 1024 /\
    2 * Z.abs (w' * 3000 - 4000 * h') <= Z.max 4000 3000.
Proof.
  apply (resizeImage_clamps_large (Demo.browser_of 4000 3000 true)
           Demo.reference {| width := 4000; height := 3000 |} 1024 1024);
    first [reflexivity | cbn; lia].
Defined.

Example default_maximum_on_a_photograph :
  resizeImage (Demo.browser_of 4000 3000 true) Demo.reference
    default_max default_max
  = Fulfilled (CanvasDataURL 1024 768 "image/jpeg" 80).
Proof. reflexivity. Qed.

(** C4 as worded fails in three ways.  Where the canvas yields no drawing
    context the 2048x1024 input comes back as it is, its larger side still
    2048.  A 5000x2 input is scaled to a canvas of height 0, which encodes
    to no image.  And with maxima 1024 and 512 an 800x600 input, higher than
    the maximum height, keeps its size: its larger side is neither
    maximum. *)
Lemma large_image_not_always_clamped :
  ~ (forall img,
       decode (Demo.browser_of 2048 1024 false) Demo.reference = Some img ->
       default_max < Z.max (width img) (height img) ->
       exists r w' h',
         resizeImage (Demo.browser_of 2048 1024 false) Demo.reference
           default_max default_max = Fulfilled r /\
         output_size (Demo.browser_of 2048 1024 false) r = Some (w', h') /\
         Z.max w' h' = default_max) /\
  ~ (forall img,
       decode (Demo.browser_of 5000 2 true) Demo.reference = Some img ->
       default_max < Z.max (width img) (height img) ->
       exists r w' h',
         resizeImage (Demo.browser_of 5000 2 true) Demo.reference
           default_max default_max = Fulfilled r /\
         encodes_image (Demo.browser_of 5000 2 true) r = true /\
         output_size (Demo.browser_of 5000 2 true) r = Some (w', h') /\
         Z.max w' h' = default_max) /\
  ~ (forall img,
       decode (Demo.browser_of 800 600 true) Demo.reference = Some img ->
       1024 < width img \/ 512 < height img ->
       exists r w' h',
         resizeImage (Demo.browser_of 800 600 true) Demo.reference
           1024 512 = Fulfilled r /\
         output_size (Demo.browser_of 800 600 true) r = Some (w', h') /\
         (Z.max w' h' = 1024 \/ Z.max w' h' = 512)).
Proof.
  split; [| split]; intros H.
  - destruct (H {| width := 2048; height := 1024 |} eq_refl)
      as (r & w' & h' & Hr & Hsize & Hmax).
    + vm_compute. reflexivity.
    + vm_compute in Hr. injection Hr as <-.
      cbn in Hsize. injection Hsize as <- <-.
      vm_compute in Hmax. discriminate.
  - destruct (H {| width := 5000; height := 2 |} eq_refl)
      as (r & w' & h' & Hr & Himage & _).
    + vm_compute. reflexivity.
    + vm_compute in Hr. injection Hr as <-.
      vm_compute in Himage. discriminate.
  - destruct (H {| width := 800; height := 600 |} eq_refl)
      as (r & w' & h' & Hr & Hsize & Hmax).
    + right. cbn. lia.
    + vm_compute in Hr. injection Hr as <-.
      cbn in Hsize. injection Hsize as <- <-.
      destruct Hmax as [Hmax | Hmax]; vm_compute in Hmax; discriminate.
Qed.

(** C5.  When both sides of the decoded image are below the maxima, the
    image the normalizer resolves with has the sides of the input: it is
    either the JPEG (quality 0.8) of a canvas of that very size, or the
    input string itself. *)
Theorem resizeImage_small_keeps_size (b : Browser) (base64Str : string)
    (img : Image) (maxWidth maxHeight : Z) :
  decode b base64Str = Some img ->
  width img < maxWidth -> height img < maxHeight ->
  exists r,
    resizeImage b base64Str maxWidth maxHeight = Fulfilled r /\
    output_size b r = Some (width img, height img) /\
    (r = CanvasDataURL (width img) (height img) "image/jpeg" 80 \/
     r = Unchanged base64Str).
Proof.
  intros Hd Hw Hh.
  rewrite (resizeImage_fit _ _ _ _ _ Hd), (fit_small _ _ _ Hw Hh).
  cbn [fst snd].
  destruct (getContext2d b (width img) (height img)).
  - eexists. split; [reflexivity |]. split; [reflexivity | now left].
  - eexists. split; [reflexivity |]. split; [| now right].
    cbn. rewrite Hd. reflexivity.
Qed.

Lemma resizeImage_small_keeps_size_witness :
  exists r,
    resizeImage (Demo.browser_of 640 480 true) Demo.reference 1024 1024
      = Fulfilled r /\
    output_size (Demo.browser_of 640 480 true) r = Some (640, 480) /\
    (r = CanvasDataURL 640 480 "image/jpeg" 80 \/
     r = Unchanged Demo.reference).
Proof.
  apply (resizeImage_small_keeps_size (Demo.browser_of 640 480 true)
           Demo.reference {| width := 640; height := 480 |} 1024 1024);
    first [reflexivity | cbn; lia].
Defined.

(** C6.  When the input does not decode, or when no canvas yields a
    drawing context, the promise of the normalizer is fulfilled (never
    rejected) with the input string itself. *)
Theorem resizeImage_fails_open (b : Browser) (base64Str : string)
    (maxWidth maxHeight : Z) :
  decode b base64Str = None \/ (forall w h, getContext2d b w h = false) ->
  resizeImage b base64Str maxWidth maxHeight
    = Fulfilled (Unchanged base64Str).
Proof.
  intros [Hd | Hctx]; unfold resizeImage.
  - rewrite Hd. reflexivity.
  - destruct (decode b base64Str) as [img |]; [| reflexivity].
    destruct (fit img maxWidth maxHeight) as [w h].
    rewrite Hctx. reflexivity.
Qed.

Lemma resizeImage_fails_open_witness :
  resizeImage Demo.browser_undecodable "not an image" 1024 1024
    = Fulfilled (Unchanged "not an image").
Proof.
  apply (resizeImage_fails_open Demo.browser_undecodable "not an image"
           1024 1024).
  left. reflexivity.
Defined.

(** ** Generation client *)





Lemma first_image_some (ps : list Part) (uri : string) :
  first_image ps = Some uri ->
  exists p blob d,
    In p ps /\ inlineData p = Some blob /\ data blob = Some d /\
    d <> "" /\ uri = ("data:image/png;base64," ++ d)%string.
Proof.
  induction ps as [| p ps IH]; [discriminate |].
  cbn [first_image]. intros H.
  assert (Hrest : first_image ps = Some uri ->
    exists p0 blob d, In p0 (p :: ps) /\ inlineData p0 = Some blob /\
      data blob = Some d /\ d <> "" /\
      uri = ("data:image/png;base64," ++ d)%string).
  { intros Hr. destruct (IH Hr) as (p0 & blob & d & Hin & Hrest).
    exists p0, blob, d. split; [now right | exact Hrest]. }
  destruct (inlineData p) as [blob |] eqn:Hblob; [| auto].
  destruct (data blob) as [d |] eqn:Hd; [| auto].
  destruct (String.eqb_spec d "") as [| Hne]; [auto |].
  injection H as <-. exists p, blob, d.
  repeat split; auto. now left.
Qed.


Lemma read_response_fulfilled (sv : Service)
    (response : GenerateContentResponse) (uri : string) :
  read_response sv response = Fulfilled uri ->
  exists d, d <> "" /\ uri = ("data:image/png;base64," ++ d)%string.
Proof.
  unfold read_response.
  destruct (candidates response) as [[| c rest] |]; try discriminate.
  destruct (content c) as [[[ps |]] |]; cbn [parts]; try discriminate.
  destruct (first_image ps) as [u |] eqn:Hu; [| discriminate].
  intros H. injection H as <-.
  destruct (first_image_some _ _ Hu) as (_ & _ & d & _ & _ & _ & Hd & ->).
  eauto.
Qed.




(** A call rejected with [undefined] reaches the caller as the type error
    of the catch block. *)
Example undefined_rejection_is_a_type_error :
  generateStoryboardFrame
    {| browser := Demo.browser_of 640 480 true;
       generateContent := fun _ _ _ => Rejected (Bare Undefined);
       TypeError_read_of_undefined := "";
       TypeError_not_iterable := "";
       TypeError_read_message_of := Demo.v8_read_message_of |}
    0 Demo.reference Demo.wide_shot
  = Rejected
      (Error "Cannot read properties of undefined (reading 'message')").
Proof. reflexivity. Qed.

Example text_only_response_is_an_error :
  generateStoryboardFrame
    (Demo.service_settling
       (Fulfilled (Demo.response_of [Demo.text_part "I cannot help"]))) 0
    Demo.reference Demo.wide_shot
  = Rejected (Error no_image_message).
Proof. reflexivity. Qed.

Example image_response_is_a_data_uri :
  generateStoryboardFrame
    (Demo.service_settling
       (Fulfilled (Demo.response_of
          [Demo.text_part "here"; Demo.image_part "";
           Demo.image_part "QUJD"]))) 0
    Demo.reference Demo.wide_shot
  = Fulfilled "data:image/png;base64,QUJD".
Proof. reflexivity. Qed.

(** ** Orchestrator: the updaters *)

Lemma resolve_fmap (shot : object) (outcome : Settled string)
    (prev : list object) :
  resolve shot outcome prev = patched shot outcome <$> prev.
Proof.
  destruct outcome; cbn [resolve].
  - apply list_fmap_ext. intros i s Hs. unfold patched.
    destruct (same_id s shot); reflexivity.
  - apply list_fmap_ext. intros i s Hs. unfold patched.
    destruct (same_id s shot); reflexivity.
Qed.

Lemma assign_lookup_ne (key key' : string) (v : option json) (o : object) :
  key <> key' -> assign key v o !! key' = o !! key'.
Proof.
  intros Hne. unfold assign. destruct v.
  - apply lookup_insert_ne, Hne.
  - apply lookup_delete_ne, Hne.
Qed.

Lemma assign_lookup_eq (key : string) (v : option json) (o : object) :
  assign key v o !! key = v.
Proof.
  unfold assign. destruct v.
  - apply lookup_insert_eq.
  - apply lookup_delete_eq.
Qed.

(** An updater writes [status], [imageUrl] and [error] and nothing else. *)
Lemma patched_frame (shot : object) (outcome : Settled string) (s : object)
    (key : string) :
  key <> "status" -> key <> "imageUrl" -> key <> "error" ->
  patched shot outcome s !! key = s !! key.
Proof.
  intros Hs Hi He. unfold patched.
  destruct (same_id s shot); [| reflexivity].
  destruct outcome as [imageUrl | error].
  - rewrite !lookup_insert_ne by congruence. reflexivity.
  - rewrite assign_lookup_ne by congruence.
    rewrite lookup_insert_ne by congruence. reflexivity.
Qed.

Lemma patched_other (shot : object) (outcome : Settled string) (s : object) :
  same_id s shot = false -> patched shot outcome s = s.
Proof. intros H. unfold patched. rewrite H. reflexivity. Qed.

Lemma patched_same_id (shot shot' : object) (outcome : Settled string)
    (s : object) :
  same_id (patched shot outcome s) shot' = same_id s shot'.
Proof.
  unfold same_id. rewrite patched_frame by discriminate. reflexivity.
Qed.

Lemma patched_status (shot : object) (outcome : Settled string) (s : object) :
  same_id s shot = true ->
  patched shot outcome s !! "status" =
    Some (status_value
            match outcome with Fulfilled _ => SUCCESS | Rejected _ => ERROR end).
Proof.
  intros H. unfold patched. rewrite H. destruct outcome as [imageUrl | error].
  - rewrite lookup_insert_ne by discriminate. apply lookup_insert_eq.
  - rewrite assign_lookup_ne by discriminate. apply lookup_insert_eq.
Qed.

Lemma patched_error (shot : object) (error : Thrown) (s : object) :
  same_id s shot = true ->
  patched shot (Rejected error) s !! "error" = JStr <$> message error.
Proof.
  intros H. unfold patched. rewrite H. apply assign_lookup_eq.
Qed.

Lemma patched_resolves (shot : object) (outcome : Settled string)
    (s : object) :
  same_id s shot = true -> resolved (patched shot outcome s) = true.
Proof.
  intros H. unfold resolved. rewrite (patched_status _ _ _ H).
  destruct outcome; reflexivity.
Qed.

Lemma patched_keeps_resolved (shot : object) (outcome : Settled string)
    (s : object) :
  resolved s = true -> resolved (patched shot outcome s) = true.
Proof.
  intros H. destruct (same_id s shot) eqn:Hid.
  - apply patched_resolves, Hid.
  - rewrite (patched_other _ _ _ Hid). exact H.
Qed.

(** ** Orchestrator: the loop *)

Lemma patches_app (w : World) (image : string) (l1 l2 : list object)
    (i : nat) (s : object) :
  patches w image (l1 ++ l2) i s
    = patches w image l2 (i + length l1)%nat (patches w image l1 i s).
Proof.
  revert i s. induction l1 as [| shot l1 IH]; intros i s; cbn.
  - rewrite Nat.add_0_r. reflexivity.
  - rewrite IH. f_equal. lia.
Qed.

Lemma patches_frame (w : World) (image : string) (remaining : list object)
    (i : nat) (s : object) (key : string) :
  key <> "status" -> key <> "imageUrl" -> key <> "error" ->
  patches w image remaining i s !! key = s !! key.
Proof.
  intros H1 H2 H3. revert i s.
  induction remaining as [| shot rest IH]; intros i s; cbn; [reflexivity |].
  rewrite IH. apply patched_frame; assumption.
Qed.

Lemma patches_same_id (w : World) (image : string) (remaining : list object)
    (i : nat) (s shot : object) :
  same_id (patches w image remaining i s) shot = same_id s shot.
Proof.
  unfold same_id. rewrite patches_frame by discriminate. reflexivity.
Qed.

Lemma patches_keeps_resolved (w : World) (image : string)
    (remaining : list object) (i : nat) (s : object) :
  resolved s = true -> resolved (patches w image remaining i s) = true.
Proof.
  revert i s. induction remaining as [| shot rest IH]; intros i s H; cbn;
    [exact H |].
  apply IH, patched_keeps_resolved, H.
Qed.

Lemma patches_resolves (w : World) (image : string)
    (remaining : list object) (i : nat) (s : object) :
  Exists (fun shot => same_id s shot = true) remaining ->
  resolved (patches w image remaining i s) = true.
Proof.
  intros H. revert i s H.
  induction remaining as [| shot rest IH]; intros i s H; cbn.
  - inversion H.
  - destruct (same_id s shot) eqn:Hid.
    + apply patches_keeps_resolved, patched_resolves, Hid.
    + apply IH. inversion H as [? ? Hhd | ? ? Htl]; subst; [congruence |].
      rewrite (patched_other _ _ _ Hid). exact Htl.
Qed.

Lemma patches_untouched (w : World) (image : string)
    (remaining : list object) (i : nat) (s : object) :
  Forall (fun shot => same_id s shot = false) remaining ->
  patches w image remaining i s = s.
Proof.
  intros H. revert i. induction H as [| shot rest Hid _ IH]; intros i; cbn;
    [reflexivity |].
  rewrite (patched_other _ _ _ Hid). apply IH.
Qed.

Lemma loop_app (w : World) (image : string) (l1 l2 : list object) (i : nat)
    (s : Session) :
  loop w image (l1 ++ l2) i s
    = loop w image l2 (i + length l1)%nat (loop w image l1 i s).
Proof.
  revert i s. induction l1 as [| shot l1 IH]; intros i s; cbn.
  - rewrite Nat.add_0_r. reflexivity.
  - rewrite IH. f_equal. lia.
Qed.

Lemma loop_shots (w : World) (image : string) (remaining : list object)
    (i : nat) (s : Session) :
  shots (ui (loop w image remaining i s))
    = patches w image remaining i <$> shots (ui s).
Proof.
  revert i s. induction remaining as [| shot rest IH]; intros i s; cbn.
  - symmetry. apply list_fmap_id.
  - rewrite IH. cbn. rewrite resolve_fmap, <- list_fmap_compose.
    reflexivity.
Qed.

Lemma loop_trace (w : World) (image : string) (remaining : list object)
    (i : nat) (s : Session) :
  trace (loop w image remaining i s)
    = (trace s
       ++ concat (imap (fun k shot => turn w image (i + k) shot) remaining))%list.
Proof.
  revert i s. induction remaining as [| shot rest IH]; intros i s.
  - cbn. rewrite app_nil_r. reflexivity.
  - cbn [loop]. rewrite IH, imap_cons. cbn [concat iteration emit trace].
    rewrite Nat.add_0_r, <- app_assoc. do 3 f_equal.
    apply imap_ext. intros k x Hx. cbn. f_equal. lia.
Qed.

(** The loop writes the list of records and nothing else of the state. *)
Lemma loop_other_cells (w : World) (image : string)
    (remaining : list object) (i : nat) (s : Session) :
  refImage (ui (loop w image remaining i s)) = refImage (ui s) /\
  jsonInput (ui (loop w image remaining i s)) = jsonInput (ui s) /\
  isGenerating (ui (loop w image remaining i s)) = isGenerating (ui s) /\
  validationError (ui (loop w image remaining i s)) = validationError (ui s).
Proof.
  revert i s. induction remaining as [| shot rest IH]; intros i s; cbn.
  - repeat split.
  - destruct (IH (S i) (iteration w image i shot s)) as (-> & -> & -> & ->).
    repeat split.
Qed.

Lemma calls_app (t1 t2 : list Effect) :
  calls (t1 ++ t2)%list = (calls t1 ++ calls t2)%list.
Proof. unfold calls. apply flat_map_app. Qed.

Lemma calls_turns (w : World) (image : string) (remaining : list object)
    (i : nat) :
  calls (concat (imap (fun k shot => turn w image (i + k) shot) remaining))
    = remaining.
Proof.
  revert i. induction remaining as [| shot rest IH]; intros i;
    [reflexivity |].
  rewrite imap_cons. cbn [concat]. rewrite calls_app. cbn. f_equal.
  rewrite <- (IH (S i)) at 2. do 2 f_equal.
  apply imap_ext. intros k x Hx. cbn. f_equal. lia.
Qed.

(** C9.  An update of the list, for whatever record and outcome, keeps the
    length of the list and, in every record, the properties [id],
    [shot_type], [aspect_ratio] and [prompt] (indeed every property other
    than [status], [imageUrl] and [error]); a record whose id is not the
    one of the update is left as it is.  Hence any stretch of the loop of a
    run leaves these four properties of every record as they were. *)
Theorem status_update_frame (shot : object) (outcome : Settled string)
    (prev : list object) :
  length (resolve shot outcome prev) = length prev /\
  (forall (j : nat) (s : object), prev !! j = Some s ->
     exists s',
       resolve shot outcome prev !! j = Some s' /\
       s' !! "id" = s !! "id" /\
       s' !! "shot_type" = s !! "shot_type" /\
       s' !! "aspect_ratio" = s !! "aspect_ratio" /\
       s' !! "prompt" = s !! "prompt" /\
       (forall key, key <> "status" -> key <> "imageUrl" -> key <> "error" ->
          s' !! key = s !! key) /\
       (same_id s shot = false -> s' = s)) /\
  (forall (w : World) (image : string) (remaining : list object) (i : nat)
          (session : Session) (j : nat) (s : object),
     shots (ui session) = prev -> prev !! j = Some s ->
     exists s',
       shots (ui (loop w image remaining i session)) !! j = Some s' /\
       s' !! "id" = s !! "id" /\
       s' !! "shot_type" = s !! "shot_type" /\
       s' !! "aspect_ratio" = s !! "aspect_ratio" /\
       s' !! "prompt" = s !! "prompt").
Proof.
  split; [| split].
  - rewrite resolve_fmap. apply length_fmap.
  - intros j s Hj. exists (patched shot outcome s).
    rewrite resolve_fmap, list_lookup_fmap, Hj.
    split; [reflexivity |].
    do 4 (split; [apply patched_frame; discriminate |]).
    split; [| apply patched_other].
    intros key H1 H2 H3. apply patched_frame; assumption.
  - intros w image remaining i session j s Hprev Hj.
    exists (patches w image remaining i s).
    rewrite loop_shots, Hprev, list_lookup_fmap, Hj.
    split; [reflexivity |].
    do 3 (split; [apply patches_frame; discriminate |]).
    apply patches_frame; discriminate.
Qed.

Example success_update_keeps_the_shot :
  resolve (<["id" := JStr "82mvyr"]> ∅) (Fulfilled "data:image/png;base64,QUJD")
    [<["id" := JStr "82mvyr"]> Demo.wide_shot;
     <["id" := JStr "5y3us"]> Demo.close_up]
  = [<["imageUrl" := JStr "data:image/png;base64,QUJD"]>
       (<["status" := JStr "SUCCESS"]>
          (<["id" := JStr "82mvyr"]> Demo.wide_shot));
     <["id" := JStr "5y3us"]> Demo.close_up].
Proof. vm_compute. reflexivity. Qed.

(** ** Orchestrator: validation and the start of a run *)

Lemma every_shot_true (parsed : list json) :
  every_shot parsed = Some true <-> Forall is_shot parsed.
Proof.
  induction parsed as [| item rest IH]; cbn [every_shot].
  - split; [constructor | reflexivity].
  - split.
    + intros H. destruct item as [| b | f | t | items | props]; cbn in H;
        try discriminate.
      destruct (truthy (props !! "shot_type")) eqn:Hs; [| discriminate].
      destruct (truthy (props !! "prompt")) eqn:Hp; [| discriminate].
      constructor; [exists props; auto | apply IH, H].
    + intros H. inversion H as [| ? ? (props & -> & Hs & Hp) Hrest]; subst.
      cbn. rewrite Hs, Hp. apply IH, Hrest.
Qed.

Lemma validate_accepts (w : World) (st : AppState) (parsed : list json) :
  snd (validateAndParseJson w st) = Some parsed <->
  JSON_parse w (jsonInput st) = Some (JArr parsed) /\
  every_shot parsed = Some true.
Proof.
  unfold validateAndParseJson.
  destruct (JSON_parse w (jsonInput st)) as [[| b | f | t | items | props] |];
    cbn; try (split; [discriminate | intros [? _]; discriminate]).
  destruct (every_shot items) as [[|] |] eqn:He; cbn.
  - split.
    + intros H. injection H as <-. auto.
    + intros [H _]. injection H as <-. reflexivity.
  - split; [discriminate |]. intros [H He']. injection H as <-. congruence.
  - split; [discriminate |]. intros [H He']. injection H as <-. congruence.
Qed.

Lemma validate_accepted_state (w : World) (st : AppState)
    (parsed : list json) :
  snd (validateAndParseJson w st) = Some parsed ->
  validateAndParseJson w st = (setValidationError None st, Some parsed).
Proof.
  intros H. apply validate_accepts in H as [Hp He].
  unfold validateAndParseJson. rewrite Hp, He. reflexivity.
Qed.

(** A refusal of validation sets one of its three messages. *)
Lemma validate_refused_state (w : World) (st : AppState) :
  snd (validateAndParseJson w st) = None ->
  exists msg,
    validateAndParseJson w st = (setValidationError (Some msg) st, None) /\
    (msg = invalid_json_message \/ msg = not_an_array_message \/
     msg = missing_fields_message).
Proof.
  unfold validateAndParseJson.
  destruct (JSON_parse w (jsonInput st)) as [[| b | f | t | items | props] |];
    cbn; try (intros _; eexists; split; [reflexivity | auto]; fail).
  destruct (every_shot items) as [[|] |]; cbn; try discriminate;
    intros _; eexists; (split; [reflexivity | auto]).
Qed.

Lemma initialShot_id (w : World) (k : nat) (config : json) :
  initialShot w k config !! "id" = Some (JStr (generateId w k)).
Proof.
  unfold initialShot. rewrite lookup_insert_ne by discriminate.
  apply lookup_insert_eq.
Qed.

Lemma initialShot_pending (w : World) (k : nat) (config : json) :
  pending (initialShot w k config) = true.
Proof.
  unfold pending, initialShot. rewrite lookup_insert_eq. reflexivity.
Qed.

Lemma initialShot_same_id (w : World) (k k' : nat) (config config' : json) :
  same_id (initialShot w k config) (initialShot w k' config')
    = String.eqb (generateId w k) (generateId w k').
Proof. unfold same_id. rewrite !initialShot_id. reflexivity. Qed.

(** The properties of a submitted shot are those of its record, apart from
    [id] and [status]. *)
Lemma initialShot_config (w : World) (k : nat) (props : gmap string json)
    (key : string) :
  key <> "id" -> key <> "status" ->
  initialShot w k (JObj props) !! key = props !! key.
Proof.
  intros H1 H2. unfold initialShot.
  rewrite !lookup_insert_ne by congruence. reflexivity.
Qed.

Lemma run_ids_distinct (w : World) (n i j : nat) :
  NoDup (run_ids w n) -> (i < n)%nat -> (j < n)%nat -> i <> j ->
  generateId w i <> generateId w j.
Proof.
  intros Hnd Hi Hj Hij Heq. apply Hij.
  apply (NoDup_lookup (run_ids w n) i j (generateId w i) Hnd);
    unfold run_ids; rewrite list_lookup_fmap.
  - rewrite lookup_seq_lt by exact Hi. reflexivity.
  - rewrite lookup_seq_lt by exact Hj. cbn. rewrite Heq. reflexivity.
Qed.

(** With pairwise distinct ids, the record of rank [i] has the id of no
    other record of the run. *)
Lemma initialShots_other_ids (w : World) (shotConfigs : list json) (i : nat)
    (config : json) (s : object) (l : list object) (d : nat) :
  NoDup (run_ids w (length shotConfigs)) ->
  shotConfigs !! i = Some config ->
  same_id s (initialShot w i config) = true ->
  (forall (k : nat) (x : object), l !! k = Some x ->
     imap (initialShot w) shotConfigs !! (d + k)%nat = Some x /\
     (d + k)%nat <> i) ->
  Forall (fun shot => same_id s shot = false) l.
Proof.
  intros Hnd Hi Hs Hl. apply Forall_lookup. intros k x Hx.
  destruct (Hl k x Hx) as [Hin Hne].
  rewrite list_lookup_imap in Hin.
  destruct (shotConfigs !! (d + k)%nat) as [config' |] eqn:Hc;
    [| discriminate].
  injection Hin as <-.
  unfold same_id in *. rewrite initialShot_id in *.
  destruct (s !! "id") as [[| | | t | |] |]; try discriminate. cbn in *.
  apply String.eqb_eq in Hs. subst t.
  apply String.eqb_neq.
  apply (run_ids_distinct w (length shotConfigs)); try assumption.
  - apply lookup_lt_Some in Hi. exact Hi.
  - apply lookup_lt_Some in Hc. exact Hc.
  - congruence.
Qed.

(** ** Orchestrator: a run on an accepted shot list *)

(** The Generate button is enabled only with a reference image and the
    credential. *)
Lemma generate_enabled (w : World) (st : AppState) :
  generate_disabled w st = false ->
  js_not (refImage st) = false /\ jsonInput st <> "" /\
  isApiKeyAvailable w = true.
Proof.
  unfold generate_disabled. intros H.
  apply orb_false_elim in H as [H Hk]. apply orb_false_elim in H as [Hr Hj].
  split; [exact Hr |]. split.
  - apply String.eqb_neq, Hj.
  - apply negb_false_iff, Hk.
Qed.

Section AcceptedRun.

Variables (w : World) (s : Session) (image : string)
          (shotConfigs : list json).
Hypothesis reference_loaded : refImage (ui s) = Some image.
Hypothesis reference_not_empty : image <> "".
Hypothesis accepted : snd (validateAndParseJson w (ui s)) = Some shotConfigs.
Hypothesis credential : isApiKeyAvailable w = true.

Local Abbreviation initialShots := (imap (initialShot w) shotConfigs).

(** The session [handleGenerate] leaves when it enters its loop. *)
Local Abbreviation started :=
  (write
     (fun _ =>
        setShots (fun _ => initialShots)
          (setIsGenerating true (setValidationError None (ui s))))
     s).

Lemma handleGenerate_start_accepted :
  handleGenerate_start w s = (started, Some (image, initialShots)).
Proof.
  unfold handleGenerate_start. rewrite reference_loaded.
  destruct (String.eqb_spec image ""); [contradiction |].
  rewrite (validate_accepted_state _ _ _ accepted), credential. reflexivity.
Qed.

Lemma handleGenerate_turns_accepted (n : nat) :
  handleGenerate_turns n w s = loop w image (take n initialShots) 0 started.
Proof.
  unfold handleGenerate_turns. rewrite handleGenerate_start_accepted.
  reflexivity.
Qed.

Lemma handleGenerate_accepted :
  handleGenerate w s
    = write (setIsGenerating false) (loop w image initialShots 0 started).
Proof.
  unfold handleGenerate. rewrite handleGenerate_start_accepted. reflexivity.
Qed.

Lemma shots_after_turns (l : list object) :
  shots (ui (loop w image l 0 started)) = patches w image l 0 <$> initialShots.
Proof. rewrite loop_shots. reflexivity. Qed.

Lemma resolved_status (r : object) :
  resolved r = true ->
  r !! "status" = Some (JStr "SUCCESS") \/ r !! "status" = Some (JStr "ERROR").
Proof.
  unfold resolved. intros H. apply orb_true_iff in H.
  destruct (r !! "status") as [[| b | f | t | items | props] |];
    cbn in H; try (destruct H; discriminate).
  destruct H as [H | H]; apply String.eqb_eq in H; subst; auto.
Qed.

(** C1.  Let a run start on a state holding a reference image and a shot
    list of length N accepted by validation, with the credential present.
    Before any call is issued the list holds N records, the k-th carrying
    the properties of the k-th input shot, the k-th id and the status
    pending.  The effects of the run are then, for each record in input
    order: the call of the client on that record, its settling (with the
    patch of the record), the pause of one second; nothing else, so that a
    call is issued only when the one before has settled, and the calls are
    the N records in input order.  When the call of rank n is about to be
    issued every record of lower rank is already success or error; at the
    end of the run the list still holds N records, every one of them
    success or error, and the busy flag is down. *)
Theorem generation_run :
  handleGenerate_start w s
    = (handleGenerate_turns 0 w s, Some (image, initialShots)) /\
  shots (ui (handleGenerate_turns 0 w s)) = initialShots /\
  trace (handleGenerate_turns 0 w s) = trace s /\
  length initialShots = length shotConfigs /\
  (forall (k : nat) (config : json), shotConfigs !! k = Some config ->
     initialShots !! k = Some (initialShot w k config)) /\
  (forall (k : nat) (config : json), shotConfigs !! k = Some config ->
     exists props r,
       config = JObj props /\
       shots (ui (handleGenerate_turns 0 w s)) !! k = Some r /\
       r !! "id" = Some (JStr (generateId w k)) /\
       r !! "status" = Some (JStr "PENDING") /\
       (forall key, key <> "id" -> key <> "status" ->
          r !! key = props !! key)) /\
  Forall (fun r => pending r = true) initialShots /\
  (forall n : nat,
     trace (handleGenerate_turns n w s)
       = (trace s
          ++ concat
               (imap
                  (fun k shot =>
                     [Invoke k image shot;
                      Settle k
                        (generateStoryboardFrame (service w) k image shot);
                      Pause 1000])
                  (take n initialShots)))%list) /\
  trace (handleGenerate w s)
    = (trace s
       ++ concat
            (imap
               (fun k shot =>
                  [Invoke k image shot;
                   Settle k (generateStoryboardFrame (service w) k image shot);
                   Pause 1000])
               initialShots))%list /\
  calls (trace (handleGenerate w s)) = (calls (trace s) ++ initialShots)%list /\
  (forall (n k : nat) (r : object),
     (k < n)%nat ->
     shots (ui (handleGenerate_turns n w s)) !! k = Some r ->
     r !! "status" = Some (JStr "SUCCESS") \/
     r !! "status" = Some (JStr "ERROR")) /\
  length (shots (ui (handleGenerate w s))) = length shotConfigs /\
  Forall (fun r => resolved r = true) (shots (ui (handleGenerate w s))) /\
  (forall (k : nat) (r : object),
     shots (ui (handleGenerate w s)) !! k = Some r ->
     r !! "status" = Some (JStr "SUCCESS") \/
     r !! "status" = Some (JStr "ERROR")) /\
  isGenerating (ui (handleGenerate w s)) = false.
Proof.
  assert (Hlook : forall (k : nat) (config : json),
            shotConfigs !! k = Some config ->
            initialShots !! k = Some (initialShot w k config)).
  { intros k config Hc. rewrite list_lookup_imap, Hc. reflexivity. }
  assert (Hresolved :
    Forall (fun r => resolved r = true)
      (patches w image initialShots 0 <$> initialShots)).
  { apply Forall_fmap, Forall_lookup. intros k r Hkr. cbn.
    apply patches_resolves, Exists_exists. exists r.
    split; [eapply list_elem_of_lookup_2; exact Hkr |].
    rewrite list_lookup_imap in Hkr.
    destruct (shotConfigs !! k) as [config |]; [| discriminate].
    injection Hkr as <-. rewrite initialShot_same_id. apply String.eqb_refl. }
  rewrite handleGenerate_accepted.
  split; [rewrite handleGenerate_turns_accepted;
          apply handleGenerate_start_accepted |].
  split; [rewrite handleGenerate_turns_accepted; reflexivity |].
  split; [rewrite handleGenerate_turns_accepted; reflexivity |].
  split; [apply length_imap |]. split; [exact Hlook |].
  split.
  { intros k config Hc.
    assert (Hshot : is_shot config).
    { pose proof accepted as Hv. apply validate_accepts in Hv as [_ He].
      apply every_shot_true in He. rewrite Forall_lookup in He. eauto. }
    destruct Hshot as (props & -> & _).
    exists props, (initialShot w k (JObj props)).
    split; [reflexivity |].
    split; [rewrite handleGenerate_turns_accepted; exact (Hlook _ _ Hc) |].
    split; [apply initialShot_id |].
    split; [unfold initialShot; apply lookup_insert_eq |].
    intros key H1 H2. apply initialShot_config; assumption. }
  split.
  { apply Forall_lookup. intros k r Hkr.
    rewrite list_lookup_imap in Hkr.
    destruct (shotConfigs !! k) as [config |]; [| discriminate].
    injection Hkr as <-. apply initialShot_pending. }
  split.
  { intros n. rewrite handleGenerate_turns_accepted, loop_trace.
    reflexivity. }
  split.
  { cbn [write trace]. rewrite loop_trace. reflexivity. }
  split.
  { cbn [write trace]. rewrite loop_trace, calls_app.
    rewrite (calls_turns w image initialShots 0). reflexivity. }
  split.
  { intros n k r Hkn Hr.
    rewrite handleGenerate_turns_accepted, shots_after_turns in Hr.
    rewrite list_lookup_fmap in Hr.
    destruct (initialShots !! k) as [x |] eqn:Hx; [| discriminate].
    injection Hr as <-. apply resolved_status.
    apply patches_resolves, Exists_exists. exists x. split.
    - apply list_elem_of_lookup. exists k.
      rewrite lookup_take_lt by exact Hkn. exact Hx.
    - rewrite list_lookup_imap in Hx.
      destruct (shotConfigs !! k) as [config |]; [| discriminate].
      injection Hx as <-. rewrite initialShot_same_id. apply String.eqb_refl. }
  cbn [write ui trace shots setIsGenerating isGenerating].
  rewrite shots_after_turns.
  split; [rewrite length_fmap; apply length_imap |].
  split; [exact Hresolved |].
  split; [| reflexivity].
  intros k r Hr. apply resolved_status.
  rewrite Forall_lookup in Hresolved. exact (Hresolved k r Hr).
Qed.

(** C7.  In a run as in C1, let the call for the record of rank [i] fail.
    Right after that turn the record of rank [i] has status error and
    carries the message of the failure; the loop goes on from rank [i + 1]
    with the records after it; over the whole run every record is called
    exactly once, in input order, whatever the outcomes; and when the ids
    of the run are pairwise distinct the record of rank [i] is still error
    with that message at the end of the run. *)
Theorem failure_does_not_stop_run (i : nat) (config : json) (e : Thrown) :
  shotConfigs !! i = Some config ->
  generateStoryboardFrame (service w) i image (initialShot w i config)
    = Rejected e ->
  (exists r,
     shots (ui (handleGenerate_turns (S i) w s)) !! i = Some r /\
     r !! "status" = Some (status_value ERROR) /\
     r !! "error" = JStr <$> message e) /\
  handleGenerate w s
    = write (setIsGenerating false)
        (loop w image (drop (S i) initialShots) (S i)
           (handleGenerate_turns (S i) w s)) /\
  calls (trace (handleGenerate w s)) = (calls (trace s) ++ initialShots)%list /\
  (NoDup (run_ids w (length shotConfigs)) ->
   exists r,
     shots (ui (handleGenerate w s)) !! i = Some r /\
     r !! "status" = Some (status_value ERROR) /\
     r !! "error" = JStr <$> message e).
Proof.
  intros Hi He.
  set (shot := initialShot w i config) in *.
  assert (Hshot : initialShots !! i = Some shot).
  { rewrite list_lookup_imap, Hi. reflexivity. }
  assert (Hlen : (i < length initialShots)%nat)
    by (eapply lookup_lt_Some; exact Hshot).
  assert (Hself : same_id shot shot = true).
  { unfold shot. rewrite initialShot_same_id. apply String.eqb_refl. }
  assert (Htake : take (S i) initialShots = (take i initialShots ++ [shot])%list)
    by (apply take_S_r, Hshot).
  assert (Hsplit : initialShots
            = (take (S i) initialShots ++ drop (S i) initialShots)%list)
    by (symmetry; apply take_drop).
  assert (Hturn : forall prefix_done : object,
            same_id prefix_done shot = true ->
            patches w image [shot] i prefix_done !! "status"
              = Some (status_value ERROR) /\
            patches w image [shot] i prefix_done !! "error"
              = JStr <$> message e /\
            same_id (patches w image [shot] i prefix_done) shot = true).
  { intros o Ho. cbn. rewrite He.
    split; [exact (patched_status shot (Rejected e) o Ho) |].
    split; [exact (patched_error shot e o Ho) |].
    rewrite patched_same_id. exact Ho. }
  rewrite handleGenerate_accepted, handleGenerate_turns_accepted.
  split.
  { rewrite shots_after_turns, list_lookup_fmap, Hshot.
    cbn [fmap option_fmap option_map].
    eexists. split; [reflexivity |].
    rewrite Htake, patches_app, length_take_le by lia. cbn [Nat.add].
    destruct (Hturn (patches w image (take i initialShots) 0 shot))
      as (H1 & H2 & _); [rewrite patches_same_id; exact Hself |].
    split; assumption. }
  split.
  { f_equal. rewrite Hsplit at 1. rewrite loop_app, length_take_le by lia.
    reflexivity. }
  split.
  { cbn [write trace]. rewrite loop_trace, calls_app.
    rewrite (calls_turns w image initialShots 0). reflexivity. }
  intros Hnd. cbn [write ui shots setIsGenerating].
  rewrite shots_after_turns, list_lookup_fmap, Hshot.
  cbn [fmap option_fmap option_map].
  destruct (Hturn shot Hself) as (H1 & H2 & H3).
  assert (Hfinal : patches w image initialShots 0 shot
                   = patches w image [shot] i shot).
  { rewrite Hsplit at 1. rewrite Htake at 1.
    rewrite !patches_app, length_app, !length_take_le by lia.
    cbn [Nat.add length].
    assert (Hbefore : patches w image (take i initialShots) 0 shot = shot).
    { apply patches_untouched.
      apply (initialShots_other_ids w shotConfigs i config shot _ 0
               Hnd Hi Hself).
      intros k x Hx. apply lookup_take_Some in Hx as [Hx Hki].
      split; [exact Hx | cbn; lia]. }
    rewrite Hbefore. replace (i + 1)%nat with (S i) by lia.
    apply patches_untouched.
    apply (initialShots_other_ids w shotConfigs i config _ _ (S i) Hnd Hi H3).
    intros k x Hx. rewrite lookup_drop in Hx.
    split; [exact Hx | lia]. }
  rewrite Hfinal. eexists. split; [reflexivity |]. split; assumption.
Qed.

End AcceptedRun.

Lemma generation_run_witness :
  length (shots (ui (handleGenerate
                       (Demo.world (Demo.service_failing_at 1 "503")
                                   Demo.distinct_draws)
                       (Demo.session Demo.shots_text)))) = 2%nat /\
  Forall (fun r => resolved r = true)
    (shots (ui (handleGenerate
                  (Demo.world (Demo.service_failing_at 1 "503")
                              Demo.distinct_draws)
                  (Demo.session Demo.shots_text)))).
Proof.
  destruct (generation_run
              (Demo.world (Demo.service_failing_at 1 "503")
                          Demo.distinct_draws)
              (Demo.session Demo.shots_text) Demo.reference
              [JObj Demo.wide_shot; JObj Demo.close_up])
    as (_ & _ & _ & _ & _ & _ & _ & _ & _ & _ & _ & Hlen & Hres & _).
  - reflexivity.
  - discriminate.
  - vm_compute. reflexivity.
  - reflexivity.
  - split; [exact Hlen | exact Hres].
Defined.

Lemma failure_does_not_stop_run_witness :
  calls (trace (handleGenerate
                  (Demo.world (Demo.service_failing_at 0 "503")
                              Demo.distinct_draws)
                  (Demo.session Demo.shots_text)))
  = imap (initialShot (Demo.world (Demo.service_failing_at 0 "503")
                                  Demo.distinct_draws))
      [JObj Demo.wide_shot; JObj Demo.close_up].
Proof.
  destruct (failure_does_not_stop_run
              (Demo.world (Demo.service_failing_at 0 "503")
                          Demo.distinct_draws)
              (Demo.session Demo.shots_text) Demo.reference
              [JObj Demo.wide_shot; JObj Demo.close_up])
    with (i := 0%nat) (config := JObj Demo.wide_shot) (e := Error "503")
    as (_ & _ & Hcalls & _).
  - reflexivity.
  - discriminate.
  - vm_compute. reflexivity.
  - reflexivity.
  - reflexivity.
  - vm_compute. reflexivity.
  - exact Hcalls.
Defined.

(** The example of the specification: one shot, a client that returns an
    image, one record with status success and a non-empty image. *)
Example one_shot_succeeds :
  (fun r => (r !! "status", r !! "imageUrl", r !! "shot_type"))
    <$> shots (ui (handleGenerate
                     (Demo.world (Demo.service_failing_at 7 "503")
                                 Demo.distinct_draws)
                     (Demo.session Demo.one_shot_text)))
  = [(Some (JStr "SUCCESS"), Some (JStr "data:image/png;base64,QUJD"),
      Some (JStr "Wide Shot"))].
Proof. vm_compute. reflexivity. Qed.

(** A failed call marks its record and the next one is still called. *)
Example failed_shot_then_next :
  (fun r => (r !! "status", r !! "error"))
    <$> shots (ui (handleGenerate
                     (Demo.world (Demo.service_failing_at 0 "503")
                                 Demo.distinct_draws)
                     (Demo.session Demo.shots_text)))
  = [(Some (JStr "ERROR"), Some (JStr "503"));
     (Some (JStr "SUCCESS"), None)].
Proof. vm_compute. reflexivity. Qed.

(** ** Orchestrator: refused input *)

Lemma handleGenerate_refused (w : World) (s : Session) :
  js_not (refImage (ui s)) = false ->
  snd (validateAndParseJson w (ui s)) = None ->
  exists msg,
    handleGenerate w s = write (setValidationError (Some msg)) s /\
    validateAndParseJson w (ui s)
      = (setValidationError (Some msg) (ui s), None).
Proof.
  intros Hr Hv. destruct (validate_refused_state w (ui s) Hv) as (msg & Hm & _).
  exists msg. split; [| exact Hm].
  unfold handleGenerate, handleGenerate_start.
  destruct (refImage (ui s)) as [image |]; [| discriminate].
  cbn in Hr. rewrite Hr, Hm. reflexivity.
Qed.

(** C8.  Let a run be started on a state that holds a reference image (the
    button that starts it is disabled otherwise, [generate_enabled]).
    (1) If the shot list is not parseable, or parses to something that is
    not an array, or parses to an array one element of which is an object
    without [shot_type] or without [prompt], then no call is made (the
    handler has no effect besides writing the state), the list of results
    is left as it was, and the validation message is set to one of the
    three texts of validation: the one for unparseable input in the first
    case, the one for a non-array in the second.  (2) A list all of whose
    elements are objects with non-empty [shot_type] and [prompt] is
    accepted with no message, whether or not [aspect_ratio] is there. *)
Theorem invalid_shot_list_blocks_run (w : World) (s : Session) :
  js_not (refImage (ui s)) = false ->
  (JSON_parse w (jsonInput (ui s)) = None \/
   (exists v, JSON_parse w (jsonInput (ui s)) = Some v /\
              forall items, v <> JArr items) \/
   (exists items props,
      JSON_parse w (jsonInput (ui s)) = Some (JArr items) /\
      In (JObj props) items /\
      (props !! "shot_type" = None \/ props !! "prompt" = None)) ->
   trace (handleGenerate w s) = trace s /\
   shots (ui (handleGenerate w s)) = shots (ui s) /\
   exists msg,
     validationError (ui (handleGenerate w s)) = Some msg /\
     (msg = invalid_json_message \/ msg = not_an_array_message \/
      msg = missing_fields_message) /\
     (JSON_parse w (jsonInput (ui s)) = None -> msg = invalid_json_message) /\
     ((exists v, JSON_parse w (jsonInput (ui s)) = Some v /\
                 forall items, v <> JArr items) ->
      msg = not_an_array_message)) /\
  (forall parsed,
     JSON_parse w (jsonInput (ui s)) = Some (JArr parsed) ->
     Forall is_shot parsed ->
     validateAndParseJson w (ui s)
       = (setValidationError None (ui s), Some parsed)).
Proof.
  intros Hr. split.
  - intros Hbad.
    assert (Hv : snd (validateAndParseJson w (ui s)) = None).
    { destruct (snd (validateAndParseJson w (ui s))) as [parsed |] eqn:Hv;
        [| reflexivity].
      apply validate_accepts in Hv as [Hp He].
      destruct Hbad as [Hn | [(v & Hv' & Hna) | (items & props & Hi & Hin & Hm)]].
      - congruence.
      - rewrite Hp in Hv'. injection Hv' as <-. now destruct (Hna parsed).
      - rewrite Hp in Hi. injection Hi as <-.
        apply every_shot_true in He.
        rewrite Forall_forall in He.
        apply list_elem_of_In in Hin.
        destruct (He _ Hin) as (props' & Heq & Hs & Hq).
        injection Heq as <-.
        destruct Hm as [Hm | Hm]; rewrite Hm in *; discriminate. }
    destruct (handleGenerate_refused w s Hr Hv) as (msg & -> & Hm).
    cbn [write ui trace shots setValidationError validationError].
    split; [reflexivity |]. split; [reflexivity |].
    exists msg. split; [reflexivity |].
    revert Hm. unfold validateAndParseJson.
    destruct (JSON_parse w (jsonInput (ui s)))
      as [[| b | f | t | items | props] |];
      try (intros Hm; injection Hm as <-;
           (split; [auto |]); split;
           [ intros; try discriminate; reflexivity
           | intros (v & Hv' & Hna); try discriminate; reflexivity ]).
    destruct (every_shot items) as [[|] |]; intros Hm; try discriminate;
      injection Hm as <-; (split; [auto |]); split;
      try discriminate; intros (v & Hv' & Hna); injection Hv' as <-;
      now destruct (Hna items).
  - intros parsed Hp Hall. apply validate_accepted_state, validate_accepts.
    split; [exact Hp | apply every_shot_true, Hall].
Qed.

Lemma invalid_shot_list_blocks_run_witness :
  trace (handleGenerate
           (Demo.world (Demo.service_failing_at 7 "503") Demo.distinct_draws)
           (Demo.session Demo.incomplete_text)) = [] /\
  validationError
    (ui (handleGenerate
           (Demo.world (Demo.service_failing_at 7 "503") Demo.distinct_draws)
           (Demo.session Demo.incomplete_text)))
  = Some missing_fields_message.
Proof.
  destruct (proj1 (invalid_shot_list_blocks_run
                     (Demo.world (Demo.service_failing_at 7 "503")
                                 Demo.distinct_draws)
                     (Demo.session Demo.incomplete_text) eq_refl))
    as (Ht & _ & _).
  - right. right.
    exists [JObj (<["shot_type" := JStr "Wide Shot"]> ∅)],
           (<["shot_type" := JStr "Wide Shot"]> ∅).
    split; [reflexivity |]. split; [now left | right; reflexivity].
  - split; [exact Ht | reflexivity].
Defined.

Example unparseable_text_is_refused :
  handleGenerate
    (Demo.world (Demo.service_failing_at 7 "503") Demo.distinct_draws)
    (Demo.session "[{shot_type: Wide Shot")
  = write (setValidationError (Some invalid_json_message))
      (Demo.session "[{shot_type: Wide Shot").
Proof. reflexivity. Qed.

Example missing_aspect_ratio_is_accepted :
  snd (validateAndParseJson
         (Demo.world (Demo.service_failing_at 7 "503") Demo.distinct_draws)
         (ui (Demo.session Demo.one_shot_text)))
  = Some [JObj Demo.wide_shot]
  /\ Demo.wide_shot !! "aspect_ratio" = None.
Proof. split; reflexivity. Qed.

(** Without a reference image the handler stops at its first test: an
    alert, and neither validation nor any call. *)
Lemma handleGenerate_no_reference (w : World) (s : Session) :
  js_not (refImage (ui s)) = true ->
  handleGenerate w s = emit [Alert no_reference_message] s.
Proof.
  intros H. unfold handleGenerate, handleGenerate_start.
  destruct (refImage (ui s)) as [image |]; [| reflexivity].
  cbn in H. rewrite H. reflexivity.
Qed.

(** Without the credential the run stops after validation. *)
Lemma handleGenerate_no_key (w : World) (s : Session) (parsed : list json) :
  js_not (refImage (ui s)) = false ->
  snd (validateAndParseJson w (ui s)) = Some parsed ->
  isApiKeyAvailable w = false ->
  handleGenerate w s = write (setValidationError (Some missing_key_message)) s.
Proof.
  intros Hr Hv Hk. unfold handleGenerate, handleGenerate_start.
  destruct (refImage (ui s)) as [image |]; [| discriminate].
  cbn in Hr. rewrite Hr, (validate_accepted_state _ _ _ Hv), Hk. reflexivity.
Qed.

(** ** Orchestrator: clearing *)

Lemma loop_on_empty (w : World) (image : string) (remaining : list object)
    (i : nat) (s : Session) :
  shots (ui s) = [] -> shots (ui (loop w image remaining i s)) = [].
Proof. intros H. rewrite loop_shots, H. reflexivity. Qed.

(** C10.  After [handleClear] the list of results is empty; every update
    of a loop still in flight leaves it empty, and so does the rest of that
    loop as a whole, down to its last write. *)
Theorem clear_discards_late_updates (w : World) (s : Session)
    (image : string) (remaining : list object) (i : nat) :
  shots (ui (handleClear s)) = [] /\
  (forall shot outcome,
     resolve shot outcome (shots (ui (handleClear s))) = []) /\
  (forall shot,
     shots (ui (iteration w image i shot (handleClear s))) = []) /\
  shots (ui (write (setIsGenerating false)
               (loop w image remaining i (handleClear s)))) = [].
Proof.
  split; [reflexivity |]. split; [| split].
  - intros shot outcome. rewrite resolve_fmap. reflexivity.
  - intros shot. cbn. rewrite resolve_fmap. reflexivity.
  - cbn [write ui shots setIsGenerating]. apply loop_on_empty. reflexivity.
Qed.

(** ** Orchestrator: the ids of a run *)

Example generateId_keeps_the_tail :
  generateId
    (Demo.world (Demo.service_failing_at 7 "503") Demo.distinct_draws) 0
  = "82mvyr".
Proof. reflexivity. Qed.

(** When the ids of a run are pairwise distinct, the update for the record
    of rank [i] changes no other record of the list. *)
Lemma update_targets_one_record (w : World) (shotConfigs : list json)
    (i j : nat) (config : json) (outcome : Settled string) :
  NoDup (run_ids w (length shotConfigs)) ->
  shotConfigs !! i = Some config -> i <> j ->
  resolve (initialShot w i config) outcome
    (imap (initialShot w) shotConfigs) !! j
  = imap (initialShot w) shotConfigs !! j.
Proof.
  intros Hnd Hi Hij. rewrite resolve_fmap, list_lookup_fmap, list_lookup_imap.
  destruct (shotConfigs !! j) as [config' |] eqn:Hj; [| reflexivity].
  cbn. f_equal. apply patched_other.
  rewrite initialShot_same_id. apply String.eqb_neq.
  apply (run_ids_distinct w (length shotConfigs)); try assumption.
  - apply lookup_lt_Some in Hj. exact Hj.
  - apply lookup_lt_Some in Hi. exact Hi.
  - congruence.
Qed.

(** C2, at the input on which the code breaks it.  When [Math.random]
    yields 0.5 and then 0.25 (["0.i"] and ["0.9"] in base 36), both records
    of a run of two shots get the empty id; the update for the first shot,
    whose call succeeds, then marks both records, and the update for the
    second, whose call fails, marks both again. *)
Theorem short_draws_collide :
  let w := Demo.world (Demo.service_failing_at 1 "503") Demo.short_draws in
  let s := Demo.session Demo.shots_text in
  run_ids w 2 = [""; ""] /\
  ~ NoDup (run_ids w 2) /\
  (fun r => (r !! "id", r !! "status"))
    <$> shots (ui (handleGenerate_turns 0 w s))
  = [(Some (JStr ""), Some (JStr "PENDING"));
     (Some (JStr ""), Some (JStr "PENDING"))] /\
  trace (handleGenerate_turns 0 w s) = [] /\
  (fun r => r !! "status") <$> shots (ui (handleGenerate_turns 1 w s))
  = [Some (JStr "SUCCESS"); Some (JStr "SUCCESS")] /\
  (fun r => (r !! "status", r !! "error"))
    <$> shots (ui (handleGenerate w s))
  = [(Some (JStr "ERROR"), Some (JStr "503"));
     (Some (JStr "ERROR"), Some (JStr "503"))].
Proof.
  cbv zeta. split; [reflexivity |]. split.
  - intros H. inversion H as [| x l Hnotin _]; subst.
    apply Hnotin. left.
  - repeat split; vm_compute; reflexivity.
Qed.

(* ===================================================================== *)
(** * Further properties *)
(* ===================================================================== *)

(** ** Image normalizer: sizes *)

(** The size of what the normalizer resolves with is the fitted size when
    the canvas is encoded, and the size of the input when the input comes
    back. *)
Lemma resizeImage_output_size (b : Browser) (base64Str : string)
    (img : Image) (maxWidth maxHeight : Z) :
  decode b base64Str = Some img ->
  exists r,
    resizeImage b base64Str maxWidth maxHeight = Fulfilled r /\
    (output_size b r = Some (fit img maxWidth maxHeight) \/
     output_size b r = Some (width img, height img)).
Proof.
  intros Hd. rewrite (resizeImage_fit _ _ _ _ _ Hd).
  destruct (getContext2d b _ _); eexists; (split; [reflexivity |]).
  - left. cbn. destruct (fit img maxWidth maxHeight). reflexivity.
  - right. cbn. rewrite Hd. reflexivity.
Qed.

Lemma fit_bounds (img : Image) (maxWidth maxHeight : Z) :
  0 <= width img -> 0 <= height img -> 0 <= maxWidth -> 0 <= maxHeight ->
  0 <= fst (fit img maxWidth maxHeight) <= width img /\
  0 <= snd (fit img maxWidth maxHeight) <= height img.
Proof.
  intros Hw Hh Hmw Hmh. unfold fit.
  destruct (Z.ltb_spec (height img) (width img)) as [Hlt | Hge].
  - destruct (Z.ltb_spec maxWidth (width img)) as [Hm | Hm]; cbn [fst snd];
      [| lia].
    pose proof (Math_round_div_le (height img * maxWidth) (width img)
                  (height img)) as Hl.
    split; [lia | apply Hl; nia].
  - destruct (Z.ltb_spec maxHeight (height img)) as [Hm | Hm]; cbn [fst snd];
      [| lia].
    pose proof (Math_round_div_le (width img * maxHeight) (height img)
                  (width img)) as Hl.
    split; [apply Hl; nia | lia].
Qed.

(** X1.  The normalizer never enlarges: for a decoded image and maxima
    that are not negative, both sides of what it resolves with are between
    0 and the corresponding side of the input. *)
Theorem resizeImage_never_enlarges (b : Browser) (base64Str : string)
    (img : Image) (maxWidth maxHeight : Z) :
  decode b base64Str = Some img ->
  0 <= width img -> 0 <= height img -> 0 <= maxWidth -> 0 <= maxHeight ->
  exists r w' h',
    resizeImage b base64Str maxWidth maxHeight = Fulfilled r /\
    output_size b r = Some (w', h') /\
    0 <= w' <= width img /\ 0 <= h' <= height img.
Proof.
  intros Hd Hw Hh Hmw Hmh.
  destruct (resizeImage_output_size b base64Str img maxWidth maxHeight Hd)
    as (r & Hr & [Hs | Hs]).
  - exists r, (fst (fit img maxWidth maxHeight)),
      (snd (fit img maxWidth maxHeight)).
    split; [exact Hr |]. split.
    + rewrite Hs. destruct (fit img maxWidth maxHeight). reflexivity.
    + apply fit_bounds; assumption.
  - exists r, (width img), (height img).
    split; [exact Hr |]. split; [exact Hs | lia].
Qed.

Lemma resizeImage_never_enlarges_witness :
  exists r w' h',
    resizeImage (Demo.browser_of 4000 3000 true) Demo.reference 1024 768
      = Fulfilled r /\
    output_size (Demo.browser_of 4000 3000 true) r = Some (w', h') /\
    0 <= w' <= 4000 /\ 0 <= h' <= 3000.
Proof.
  apply (resizeImage_never_enlarges (Demo.browser_of 4000 3000 true)
           Demo.reference {| width := 4000; height := 3000 |} 1024 768);
    first [reflexivity | cbn; lia].
Defined.

(** X2.  With one maximum [m] for both sides, the fitted size is the size
    of the image exactly when its larger side does not exceed [m]: an image
    of larger side [m] is not scaled, one of larger side [m + 1] is. *)
Theorem fit_unchanged_iff (img : Image) (m : Z) :
  fit img m m = (width img, height img) <->
  Z.max (width img) (height img) <= m.
Proof.
  unfold fit.
  destruct (Z.ltb_spec (height img) (width img)) as [Hlt | Hge].
  - destruct (Z.ltb_spec m (width img)) as [Hm | Hm].
    + split; [| lia]. intros H. injection H as H1 _. lia.
    + split; [lia | reflexivity].
  - destruct (Z.ltb_spec m (height img)) as [Hm | Hm].
    + split; [| lia]. intros H. injection H as _ H2. lia.
    + split; [lia | reflexivity].
Qed.

Lemma fit_within_square (img : Image) (m : Z) :
  0 <= width img -> 0 <= height img -> 0 <= m ->
  fst (fit img m m) <= m /\ snd (fit img m m) <= m.
Proof.
  intros Hw Hh Hm. unfold fit.
  destruct (Z.ltb_spec (height img) (width img)) as [Hlt | Hge].
  - destruct (Z.ltb_spec m (width img)) as [Hm' | Hm']; cbn [fst snd];
      [| lia].
    pose proof (Math_round_div_le (height img * m) (width img) m) as Hl.
    split; [lia | apply Hl; nia].
  - destruct (Z.ltb_spec m (height img)) as [Hm' | Hm']; cbn [fst snd];
      [| lia].
    pose proof (Math_round_div_le (width img * m) (height img) m) as Hl.
    split; [apply Hl; nia | lia].
Qed.

(** X3.  With one maximum [m] for both sides, the fitted size of any image
    lies within [m] by [m], and fitting it again changes nothing: the
    normalizer applied to its own output keeps the size. *)
Theorem fit_idempotent (img : Image) (m : Z) :
  0 <= width img -> 0 <= height img -> 0 <= m ->
  fst (fit img m m) <= m /\ snd (fit img m m) <= m /\
  fit {| width := fst (fit img m m); height := snd (fit img m m) |} m m
    = fit img m m.
Proof.
  intros Hw Hh Hm.
  destruct (fit_within_square img m Hw Hh Hm) as [H1 H2].
  split; [exact H1 |]. split; [exact H2 |].
  set (out := {| width := fst (fit img m m); height := snd (fit img m m) |}).
  assert (Hout : fit out m m = (width out, height out)).
  { unfold fit. cbn [width height out].
    destruct (Z.ltb_spec (snd (fit img m m)) (fst (fit img m m)));
      [destruct (Z.ltb_spec m (fst (fit img m m)))
      | destruct (Z.ltb_spec m (snd (fit img m m)))];
      first [reflexivity | lia]. }
  rewrite Hout. cbn [width height out].
  destruct (fit img m m). reflexivity.
Qed.

Lemma fit_idempotent_witness :
  fst (fit {| width := 4000; height := 3000 |} 1024 1024) <= 1024 /\
  snd (fit {| width := 4000; height := 3000 |} 1024 1024) <= 1024 /\
  fit {| width := fst (fit {| width := 4000; height := 3000 |} 1024 1024);
         height := snd (fit {| width := 4000; height := 3000 |} 1024 1024) |}
      1024 1024
  = fit {| width := 4000; height := 3000 |} 1024 1024.
Proof.
  apply (fit_idempotent {| width := 4000; height := 3000 |} 1024); cbn; lia.
Defined.

Lemma Math_round_div_zero (a b : Z) :
  0 <= a -> 0 < b -> (Math_round_div a b = 0 <-> 2 * a < b).
Proof.
  intros Ha Hb. pose proof (Math_round_div_spec a b Hb) as Hs.
  pose proof (Math_round_div_le a b a) as Hl.
  split; intros H.
  - rewrite H in Hs. lia.
  - assert (0 <= Math_round_div a b) by (unfold Math_round_div;
      apply Z.div_pos; lia).
    nia.
Qed.

(** X4.  A scaled image loses its short side altogether when it is thin
    enough: for a landscape image wider than the maximum the new height is
    0 exactly when the width is more than twice the height times the
    maximum, and likewise for a portrait image. *)
Theorem fit_short_side_vanishes (img : Image) (maxWidth maxHeight : Z) :
  (0 <= height img -> height img < width img ->
   0 <= maxWidth -> maxWidth < width img ->
   (snd (fit img maxWidth maxHeight) = 0 <->
    2 * (height img * maxWidth) < width img)) /\
  (0 <= width img -> width img <= height img ->
   0 <= maxHeight -> maxHeight < height img ->
   (fst (fit img maxWidth maxHeight) = 0 <->
    2 * (width img * maxHeight) < height img)).
Proof.
  unfold fit. split.
  - intros Hh Hlt Hm Hbig.
    destruct (Z.ltb_spec (height img) (width img)); [| lia].
    destruct (Z.ltb_spec maxWidth (width img)); [| lia].
    cbn [snd]. apply Math_round_div_zero; nia.
  - intros Hw Hle Hm Hbig.
    destruct (Z.ltb_spec (height img) (width img)); [lia |].
    destruct (Z.ltb_spec maxHeight (height img)); [| lia].
    cbn [fst]. apply Math_round_div_zero; nia.
Qed.

Example panorama_loses_its_height :
  fit {| width := 5000; height := 2 |} 1024 1024 = (1024, 0).
Proof. reflexivity. Qed.

Example strip_keeps_one_pixel :
  fit {| width := 2048; height := 1 |} 1024 1024 = (1024, 1).
Proof. reflexivity. Qed.

(** X5.  Only the longer side is tested, against its own maximum: a
    landscape image not wider than [maxWidth] keeps its size whatever
    [maxHeight] is, even when its height exceeds it, and a portrait or
    square image not higher than [maxHeight] keeps its size whatever
    [maxWidth] is. *)
Theorem resizeImage_tests_longer_side_only (b : Browser)
    (base64Str : string) (img : Image) (maxWidth maxHeight : Z) :
  decode b base64Str = Some img ->
  (height img < width img /\ width img <= maxWidth) \/
  (width img <= height img /\ height img <= maxHeight) ->
  exists r,
    resizeImage b base64Str maxWidth maxHeight = Fulfilled r /\
    output_size b r = Some (width img, height img).
Proof.
  intros Hd Hside.
  assert (Hfit : fit img maxWidth maxHeight = (width img, height img)).
  { unfold fit. destruct Hside as [[Hlt Hle] | [Hle Hle']].
    - destruct (Z.ltb_spec (height img) (width img)); [| lia].
      destruct (Z.ltb_spec maxWidth (width img)); [lia | reflexivity].
    - destruct (Z.ltb_spec (height img) (width img)); [lia |].
      destruct (Z.ltb_spec maxHeight (height img)); [lia | reflexivity]. }
  destruct (resizeImage_output_size b base64Str img maxWidth maxHeight Hd)
    as (r & Hr & [Hs | Hs]); exists r; (split; [exact Hr |]).
  - rewrite Hs, Hfit. reflexivity.
  - exact Hs.
Qed.

Lemma resizeImage_tests_longer_side_only_witness :
  exists r,
    resizeImage (Demo.browser_of 800 600 true) Demo.reference 1024 512
      = Fulfilled r /\
    output_size (Demo.browser_of 800 600 true) r = Some (800, 600).
Proof.
  apply (resizeImage_tests_longer_side_only (Demo.browser_of 800 600 true)
           Demo.reference {| width := 800; height := 600 |} 1024 512).
  - reflexivity.
  - left. cbn. lia.
Defined.

(** ** Generation client: which part, which candidate, which message *)

(** X6.  The search returns the data of the first part that carries
    non-empty inline data, under the PNG prefix: parts before it that carry
    none (text parts, parts with empty data) are skipped, the parts after
    it and the mime type of the part play no role. *)
Theorem first_image_takes_first (before after : list Part) (part : Part)
    (blob : Blob) (d : string) :
  Forall (fun p => carries_image p = false) before ->
  inlineData part = Some blob -> data blob = Some d -> d <> "" ->
  first_image (before ++ part :: after)%list
    = Some ("data:image/png;base64," ++ d)%string.
Proof.
  intros Hbefore Hblob Hd Hne.
  induction Hbefore as [| p ps Hp _ IH]; cbn [app first_image].
  - rewrite Hblob, Hd.
    destruct (String.eqb_spec d ""); [contradiction | reflexivity].
  - unfold carries_image in Hp.
    destruct (inlineData p) as [bl |]; [| exact IH].
    destruct (data bl) as [d' |]; [| exact IH].
    cbn in Hp. apply negb_false_iff in Hp. rewrite Hp. exact IH.
Qed.

Lemma first_image_takes_first_witness :
  first_image
    ([Demo.text_part "here"; Demo.image_part ""]
     ++ Demo.image_part "QUJD" :: [Demo.image_part "REVG"])%list
  = Some "data:image/png;base64,QUJD".
Proof.
  apply (first_image_takes_first
           [Demo.text_part "here"; Demo.image_part ""]
           [Demo.image_part "REVG"] (Demo.image_part "QUJD")
           {| mimeType := Some "image/png"; data := Some "QUJD" |} "QUJD").
  - repeat constructor.
  - reflexivity.
  - reflexivity.
  - discriminate.
Defined.



(** An image in the second candidate does not help. *)
Example image_in_second_candidate_is_ignored :
  generateStoryboardFrame
    (Demo.service_settling
       (Fulfilled
          {| candidates := Some
               [ {| content := Some {| parts :=
                      Some [Demo.text_part "no"] |} |};
                 {| content := Some {| parts :=
                      Some [Demo.image_part "QUJD"] |} |} ] |})) 0
    Demo.reference Demo.wide_shot
  = Rejected (Error no_image_message).
Proof. reflexivity. Qed.

Lemma rethrow_message (sv : Service) (error : Raised) :
  exists m, rethrow sv error = Error m /\ m <> "" /\
    (m = "Failed to generate image" \/
     (exists t, error = Value t /\ message t = Some m) \/
     (exists n, error = Bare n /\
                m = as_string (TypeError_read_message_of sv n))).
Proof.
  destruct error as [n | t]; cbn [rethrow].
  - eexists. split; [reflexivity |]. split; [discriminate |].
    right. right. eauto.
  - unfold or_else. destruct (message t) as [v |] eqn:Hm.
    + destruct (String.eqb_spec v "") as [| Hne].
      * eexists. split; [reflexivity |]. split; [discriminate | now left].
      * exists v. split; [reflexivity |]. split; [exact Hne |].
        right. left. eauto.
    + eexists. split; [reflexivity |]. split; [discriminate | now left].
Qed.

(** Every failure of the client is an [Error] with a non-empty message. *)
Lemma generateStoryboardFrame_rejected (sv : Service) (call : nat)
    (image : string) (shot : gmap string json) (e : Thrown) :
  generateStoryboardFrame sv call image shot = Rejected e ->
  exists m, e = Error m /\ m <> "".
Proof.
  unfold generateStoryboardFrame.
  destruct (attempt sv call image shot) as [uri | error]; [discriminate |].
  intros H. injection H as <-.
  destruct (rethrow_message sv error) as (m & -> & Hne & _). eauto.
Qed.

Lemma generateStoryboardFrame_fulfilled (sv : Service) (call : nat)
    (image : string) (shot : gmap string json) (uri : string) :
  generateStoryboardFrame sv call image shot = Fulfilled uri ->
  exists d, d <> "" /\ uri = ("data:image/png;base64," ++ d)%string.
Proof.
  unfold generateStoryboardFrame, attempt.
  destruct (resizeImage (browser sv) image default_max default_max)
    as [opt | e]; cbn [raised await]; [| discriminate].
  destruct (generateContent sv call opt shot) as [response | e];
    cbn [await]; [| discriminate].
  destruct (read_response sv response) as [u |] eqn:Hu; cbn [raised];
    [| discriminate].
  intros H. injection H as <-. exact (read_response_fulfilled _ _ _ Hu).
Qed.



(** ** The payload of the request *)

Lemma strip_prefix_Some (p s rest : string) :
  strip_prefix p s = Some rest <-> s = (p ++ rest)%string.
Proof.
  revert s. induction p as [| a p IH]; intros s; cbn.
  - split; [intros H; injection H as <-; reflexivity | intros ->; reflexivity].
  - destruct s as [| b s]; [split; discriminate |].
    destruct (Ascii.eqb_spec a b) as [<- | Hne].
    + rewrite IH. split; [intros ->; reflexivity | intros H; injection H; auto].
    + split; [discriminate | intros H; injection H; congruence].
Qed.

(** X9.  Cleaning the image string removes a leading PNG, JPEG or JPG
    base64 header and nothing else: a string that starts with one of the
    three headers becomes what follows the header, and any other string (a
    header of another type or in other letter case, a bare payload) is
    passed on as it is.  In both cases the result is the end of the input. *)
Theorem cleanBase64_spec (optimizedImage : string) :
  ((exists type,
      In type ["png"; "jpeg"; "jpg"] /\
      optimizedImage = (header type ++ cleanBase64 optimizedImage)%string) \/
   ((forall type rest, In type ["png"; "jpeg"; "jpg"] ->
       optimizedImage <> (header type ++ rest)%string) /\
    cleanBase64 optimizedImage = optimizedImage)) /\
  (forall type payload, In type ["png"; "jpeg"; "jpg"] ->
     cleanBase64 (header type ++ payload) = payload).
Proof.
  split.
  - unfold cleanBase64.
    destruct (strip_prefix (header "png") optimizedImage) as [r |] eqn:H1.
    { left. exists "png". split; [cbn; auto |].
      apply strip_prefix_Some, H1. }
    destruct (strip_prefix (header "jpeg") optimizedImage) as [r |] eqn:H2.
    { left. exists "jpeg". split; [cbn; auto |].
      apply strip_prefix_Some, H2. }
    destruct (strip_prefix (header "jpg") optimizedImage) as [r |] eqn:H3.
    { left. exists "jpg". split; [cbn; auto |].
      apply strip_prefix_Some, H3. }
    right. split; [| reflexivity].
    intros type rest Hin Heq. apply strip_prefix_Some in Heq.
    cbn in Hin. destruct Hin as [<- | [<- | [<- | []]]]; congruence.
  - intros type payload Hin. unfold cleanBase64.
    cbn in Hin. destruct Hin as [<- | [<- | [<- | []]]].
    + assert (H : strip_prefix (header "png") (header "png" ++ payload)
                  = Some payload) by (apply strip_prefix_Some; reflexivity).
      rewrite H. reflexivity.
    + assert (H : strip_prefix (header "jpeg") (header "jpeg" ++ payload)
                  = Some payload) by (apply strip_prefix_Some; reflexivity).
      rewrite H. reflexivity.
    + assert (H : strip_prefix (header "jpg") (header "jpg" ++ payload)
                  = Some payload) by (apply strip_prefix_Some; reflexivity).
      rewrite H. reflexivity.
Qed.

Example webp_header_is_kept :
  cleanBase64 "data:image/webp;base64,UklGRg=="
  = "data:image/webp;base64,UklGRg==".
Proof. reflexivity. Qed.

Example header_is_removed_once :
  cleanBase64 "data:image/png;base64,data:image/png;base64,QUJD"
  = "data:image/png;base64,QUJD".
Proof. reflexivity. Qed.

(** ** Validation: what is accepted, and which message is set *)

Lemma every_shot_skips_shots (before rest : list json) :
  Forall is_shot before ->
  every_shot (before ++ rest)%list = every_shot rest.
Proof.
  induction 1 as [| item before (props & -> & Hs & Hp) _ IH]; [reflexivity |].
  cbn. rewrite Hs, Hp. exact IH.
Qed.

Lemma every_shot_stops (item : json) (rest : list json) :
  ~ is_shot item ->
  every_shot (item :: rest)
    = match item with JNull => None | _ => Some false end.
Proof.
  intros Hno. destruct item as [| b | f | t | items | props]; try reflexivity.
  cbn. destruct (truthy (props !! "shot_type")) eqn:Hs; [| reflexivity].
  destruct (truthy (props !! "prompt")) eqn:Hp; [| reflexivity].
  destruct Hno. exists props. auto.
Qed.

Lemma validate_writes_message_only (w : World) (st : AppState) :
  exists e, fst (validateAndParseJson w st) = setValidationError e st.
Proof.
  unfold validateAndParseJson.
  destruct (JSON_parse w (jsonInput st)) as [[| b | f | t | items | props] |];
    try (eexists; reflexivity).
  destruct (every_shot items) as [[|] |]; eexists; reflexivity.
Qed.

(** X10.  Validation accepts a text exactly when it parses to an array all
    of whose elements are objects with a truthy [shot_type] and a truthy
    [prompt] (no other property is looked at, and the values need not be
    strings); it then returns the parsed array itself and clears the
    message.  Accepting or not, it writes the message and no other cell of
    the state. *)
Theorem validateAndParseJson_accepts_iff (w : World) (st : AppState)
    (parsed : list json) :
  (snd (validateAndParseJson w st) = Some parsed <->
   JSON_parse w (jsonInput st) = Some (JArr parsed) /\
   Forall is_shot parsed) /\
  (snd (validateAndParseJson w st) = Some parsed ->
   fst (validateAndParseJson w st) = setValidationError None st) /\
  refImage (fst (validateAndParseJson w st)) = refImage st /\
  jsonInput (fst (validateAndParseJson w st)) = jsonInput st /\
  shots (fst (validateAndParseJson w st)) = shots st /\
  isGenerating (fst (validateAndParseJson w st)) = isGenerating st.
Proof.
  split; [| split].
  - rewrite validate_accepts, every_shot_true. reflexivity.
  - intros H. rewrite (validate_accepted_state _ _ _ H). reflexivity.
  - destruct (validate_writes_message_only w st) as [e ->].
    repeat split.
Qed.

Example typed_values_are_not_checked :
  snd (validateAndParseJson
         (Samples.world_parsing
            (JArr [JObj (<["prompt" := JArr []]>
                           (<["shot_type" := JNum 5%float]> ∅))]))
         (ui (Demo.session "[...]")))
  = Some [JObj (<["prompt" := JArr []]> (<["shot_type" := JNum 5%float]> ∅))].
Proof. reflexivity. Qed.

(** X11.  The first element of the array that is not a shot decides the
    message, whatever follows it: when it is [null] the message is the one
    for unparseable input (reading its property throws, and the same
    handler catches it), otherwise it is the one for missing fields. *)
Theorem first_offending_element_decides (w : World) (st : AppState)
    (before after : list json) (item : json) :
  JSON_parse w (jsonInput st) = Some (JArr (before ++ item :: after)) ->
  Forall is_shot before -> ~ is_shot item ->
  validateAndParseJson w st
    = (setValidationError
         (Some match item with
               | JNull => invalid_json_message
               | _ => missing_fields_message
               end) st,
       None).
Proof.
  intros Hp Hbefore Hitem. unfold validateAndParseJson.
  rewrite Hp, (every_shot_skips_shots _ _ Hbefore),
    (every_shot_stops _ _ Hitem).
  destruct item; reflexivity.
Qed.

Lemma first_offending_element_decides_witness :
  validateAndParseJson
    (Samples.world_parsing (JArr [JObj Demo.wide_shot; JNull; JObj ∅]))
    (ui (Demo.session "[...]"))
  = (setValidationError (Some invalid_json_message)
       (ui (Demo.session "[...]")),
     None).
Proof.
  apply (first_offending_element_decides
           (Samples.world_parsing (JArr [JObj Demo.wide_shot; JNull; JObj ∅]))
           (ui (Demo.session "[...]")) [JObj Demo.wide_shot] [JObj ∅] JNull).
  - reflexivity.
  - constructor; [| constructor].
    exists Demo.wide_shot. split; [reflexivity |]. split; reflexivity.
  - intros (props & Heq & _). discriminate.
Defined.

(** X12.  A property that is there but falsy counts as missing: a list one
    element of which is an object whose [shot_type] or [prompt] is the
    empty string, [null], [false], zero (or absent) is refused. *)
Theorem falsy_field_is_refused (w : World) (st : AppState)
    (items : list json) (props : gmap string json) :
  JSON_parse w (jsonInput st) = Some (JArr items) ->
  In (JObj props) items ->
  truthy (props !! "shot_type") = false \/
  truthy (props !! "prompt") = false ->
  exists msg,
    validateAndParseJson w st = (setValidationError (Some msg) st, None) /\
    (msg = invalid_json_message \/ msg = missing_fields_message).
Proof.
  intros Hp Hin Hfalsy.
  assert (Hno : every_shot items <> Some true).
  { intros He. apply every_shot_true in He. rewrite Forall_forall in He.
    apply list_elem_of_In in Hin.
    destruct (He _ Hin) as (props' & Heq & Hs & Hq).
    injection Heq as <-. destruct Hfalsy; congruence. }
  unfold validateAndParseJson. rewrite Hp.
  destruct (every_shot items) as [[|] |]; [contradiction | |];
    eexists; (split; [reflexivity | auto]).
Qed.

Lemma falsy_field_is_refused_witness :
  exists msg,
    validateAndParseJson
      (Samples.world_parsing
         (JArr [JObj (<["shot_type" := JStr ""]> Demo.wide_shot)]))
      (ui (Demo.session "[...]"))
    = (setValidationError (Some msg) (ui (Demo.session "[...]")), None) /\
    (msg = invalid_json_message \/ msg = missing_fields_message).
Proof.
  apply (falsy_field_is_refused
           (Samples.world_parsing
              (JArr [JObj (<["shot_type" := JStr ""]> Demo.wide_shot)]))
           (ui (Demo.session "[...]"))
           [JObj (<["shot_type" := JStr ""]> Demo.wide_shot)]
           (<["shot_type" := JStr ""]> Demo.wide_shot)).
  - reflexivity.
  - left. reflexivity.
  - left. reflexivity.
Defined.

(** ** The gates of [handleGenerate] *)

(** X13.  Without a reference image (none, or the empty string) the
    handler raises its alert and stops: no cell of the state is written,
    not even the validation message, whatever the shot list and the
    credential are. *)
Theorem no_reference_only_alerts (w : World) (s : Session) :
  js_not (refImage (ui s)) = true ->
  ui (handleGenerate w s) = ui s /\
  trace (handleGenerate w s) = (trace s ++ [Alert no_reference_message])%list /\
  calls (trace (handleGenerate w s)) = calls (trace s).
Proof.
  intros H. rewrite (handleGenerate_no_reference w s H).
  split; [reflexivity |]. split; [reflexivity |].
  cbn [emit trace]. rewrite calls_app. cbn. apply app_nil_r.
Qed.

Lemma no_reference_only_alerts_witness :
  ui (handleGenerate Samples.world_without_key
        (Samples.session_without_reference "not json"))
  = ui (Samples.session_without_reference "not json") /\
  trace (handleGenerate Samples.world_without_key
           (Samples.session_without_reference "not json"))
  = [Alert no_reference_message].
Proof.
  destruct (no_reference_only_alerts Samples.world_without_key
              (Samples.session_without_reference "not json") eq_refl)
    as (Hui & Htrace & _).
  split; [exact Hui | exact Htrace].
Defined.

(** X14.  With a reference image and an accepted shot list but no
    credential ([process.env.API_KEY] absent or empty), the handler sets
    the message about the key and stops: no call, no alert, and the list of
    results, the busy flag and the inputs are left as they were. *)
Theorem missing_credential_blocks_run (w : World) (s : Session)
    (parsed : list json) :
  js_not (refImage (ui s)) = false ->
  snd (validateAndParseJson w (ui s)) = Some parsed ->
  API_KEY w = None \/ API_KEY w = Some "" ->
  validationError (ui (handleGenerate w s)) = Some missing_key_message /\
  trace (handleGenerate w s) = trace s /\
  shots (ui (handleGenerate w s)) = shots (ui s) /\
  isGenerating (ui (handleGenerate w s)) = isGenerating (ui s) /\
  refImage (ui (handleGenerate w s)) = refImage (ui s) /\
  jsonInput (ui (handleGenerate w s)) = jsonInput (ui s).
Proof.
  intros Hr Hv Hk.
  assert (Hno : isApiKeyAvailable w = false)
    by (unfold isApiKeyAvailable; destruct Hk as [-> | ->]; reflexivity).
  rewrite (handleGenerate_no_key w s parsed Hr Hv Hno).
  repeat split.
Qed.

Lemma missing_credential_blocks_run_witness :
  validationError
    (ui (handleGenerate Samples.world_without_key
           (Demo.session Demo.shots_text)))
  = Some missing_key_message /\
  trace (handleGenerate Samples.world_without_key
           (Demo.session Demo.shots_text)) = [].
Proof.
  destruct (missing_credential_blocks_run Samples.world_without_key
              (Demo.session Demo.shots_text)
              [JObj Demo.wide_shot; JObj Demo.close_up])
    as (Hmsg & Htrace & _).
  - reflexivity.
  - vm_compute. reflexivity.
  - left. reflexivity.
  - split; [exact Hmsg | exact Htrace].
Defined.

(** ** The ids *)

Lemma substring_whole (s : string) : String.substring 0 (String.length s) s = s.
Proof. induction s as [| c s IH]; cbn; [reflexivity | now rewrite IH]. Qed.

Lemma substring_from_app (p t : string) :
  substring_from (String.length p) (p ++ t) = t.
Proof.
  unfold substring_from. induction p as [| c p IH]; cbn.
  - rewrite Nat.sub_0_r. apply substring_whole.
  - exact IH.
Qed.

Lemma substring_from_short (n : nat) (s : string) :
  (String.length s <= n)%nat -> substring_from n s = "".
Proof.
  unfold substring_from. revert n.
  induction s as [| c s IH]; intros n Hn.
  - destruct n; reflexivity.
  - destruct n as [| n]; cbn in Hn; [lia |]. cbn. apply IH. lia.
Qed.

(** X15.  An id is what follows the first seven characters of the text of
    the draw (["0."] and five digits): two draws that differ only there
    get the same id, and a draw whose text has at most seven characters
    gets the empty id. *)
Theorem generateId_is_the_tail (w : World) (k : nat) :
  (forall front tail : string,
     Math_random_base36 w k = (front ++ tail)%string ->
     String.length front = 7%nat ->
     generateId w k = tail) /\
  ((String.length (Math_random_base36 w k) <= 7)%nat -> generateId w k = "") /\
  (forall (k' : nat) (front front' tail : string),
     Math_random_base36 w k = (front ++ tail)%string ->
     Math_random_base36 w k' = (front' ++ tail)%string ->
     String.length front = 7%nat -> String.length front' = 7%nat ->
     generateId w k = generateId w k').
Proof.
  assert (Htail : forall (j : nat) (front tail : string),
            Math_random_base36 w j = (front ++ tail)%string ->
            String.length front = 7%nat -> generateId w j = tail).
  { intros j front tail Htext Hlen. unfold generateId.
    rewrite Htext, <- Hlen. apply substring_from_app. }
  split; [exact (Htail k) |]. split.
  - intros Hshort. unfold generateId. apply substring_from_short, Hshort.
  - intros k' front front' tail H1 H2 L1 L2.
    rewrite (Htail k front tail H1 L1), (Htail k' front' tail H2 L2).
    reflexivity.
Qed.

Example close_draws_share_an_id :
  substring_from 7 "0.4fzyo82mvyr" = substring_from 7 "0.9k2ab82mvyr"
  /\ substring_from 7 "0.4fzyo82mvyr" = "82mvyr".
Proof. split; reflexivity. Qed.

(** ** The records at the end of a run *)

Lemma patched_finished (sv : Service) (i : nat) (image : string)
    (shot s : object) :
  same_id s shot = true ->
  finished (patched shot (generateStoryboardFrame sv i image shot) s).
Proof.
  intros Hid.
  destruct (generateStoryboardFrame sv i image shot) as [uri | e] eqn:Ho.
  - left. split; [exact (patched_status shot (Fulfilled uri) s Hid) |].
    destruct (generateStoryboardFrame_fulfilled _ _ _ _ _ Ho) as (d & Hd & ->).
    exists d. split; [exact Hd |].
    unfold patched. rewrite Hid. apply lookup_insert_eq.
  - right. split; [exact (patched_status shot (Rejected e) s Hid) |].
    destruct (generateStoryboardFrame_rejected _ _ _ _ _ Ho) as (m & -> & Hm).
    exists m. split; [exact Hm |].
    rewrite (patched_error shot (Error m) s Hid). reflexivity.
Qed.

Lemma patches_finished (w : World) (image : string)
    (remaining : list object) (i : nat) (s : object) :
  finished s \/ Exists (fun shot => same_id s shot = true) remaining ->
  finished (patches w image remaining i s).
Proof.
  revert i s. induction remaining as [| shot rest IH]; intros i s H; cbn.
  - destruct H as [H | H]; [exact H | inversion H].
  - apply IH. destruct (same_id s shot) eqn:Hid.
    + left. apply patched_finished, Hid.
    + rewrite (patched_other _ _ _ Hid).
      destruct H as [H | H]; [now left | right].
      inversion H as [? ? Hhd | ? ? Htl]; subst; [congruence | exact Htl].
Qed.

Lemma finished_image_area (r : object) :
  finished r ->
  (exists uri, uri <> "" /\ r !! "imageUrl" = Some (JStr uri) /\
               image_area r = [Picture (Some (JStr uri))]) \/
  (exists m, m <> "" /\ r !! "error" = Some (JStr m) /\
             image_area r = [Failure (Some (JStr m))]).
Proof.
  intros [(Hs & d & Hd & Hu) | (Hs & m & Hm & He)].
  - left. exists ("data:image/png;base64," ++ d)%string.
    split; [discriminate |]. split; [exact Hu |].
    unfold image_area, pending, isError, isSuccess. rewrite Hs, Hu.
    reflexivity.
  - right. exists m. split; [exact Hm |]. split; [exact He |].
    unfold image_area, pending, isError, isSuccess, error_text.
    rewrite Hs, He. cbn.
    destruct (String.eqb_spec m ""); [contradiction | reflexivity].
Qed.

(** The value of a patched record at any property depends on the id of the
    record and on its value at that property only. *)
Lemma patched_agree (shot : object) (outcome : Settled string)
    (s1 s2 : object) (key : string) :
  s1 !! "id" = s2 !! "id" -> s1 !! key = s2 !! key ->
  patched shot outcome s1 !! key = patched shot outcome s2 !! key.
Proof.
  intros Hid Hkey. unfold patched, same_id. rewrite Hid.
  destruct (strict_equal (s2 !! "id") (shot !! "id")); [| exact Hkey].
  destruct outcome as [imageUrl | error].
  - rewrite !lookup_insert. repeat case_decide; auto.
  - unfold assign. destruct (JStr <$> message error).
    + rewrite !lookup_insert. repeat case_decide; auto.
    + rewrite !lookup_delete, !lookup_insert. repeat case_decide; auto.
Qed.

Lemma patches_agree (w : World) (image : string) (remaining : list object)
    (i : nat) (s1 s2 : object) (key : string) :
  s1 !! "id" = s2 !! "id" -> s1 !! key = s2 !! key ->
  patches w image remaining i s1 !! key
    = patches w image remaining i s2 !! key.
Proof.
  revert i s1 s2. induction remaining as [| shot rest IH];
    intros i s1 s2 Hid Hkey; cbn; [exact Hkey |].
  apply IH.
  - rewrite !patched_frame by discriminate. exact Hid.
  - apply patched_agree; assumption.
Qed.

Lemma validate_reads_the_text_only (w : World) (st st' : AppState) :
  jsonInput st' = jsonInput st ->
  snd (validateAndParseJson w st') = snd (validateAndParseJson w st).
Proof.
  intros H. unfold validateAndParseJson. rewrite H.
  destruct (JSON_parse w (jsonInput st)) as [[| b | f | t | items | props] |];
    try reflexivity.
  destruct (every_shot items) as [[|] |]; reflexivity.
Qed.

Section FinishedRun.

Variables (w : World) (s : Session) (image : string)
          (shotConfigs : list json).
Hypothesis reference_loaded : refImage (ui s) = Some image.
Hypothesis reference_not_empty : image <> "".
Hypothesis accepted : snd (validateAndParseJson w (ui s)) = Some shotConfigs.
Hypothesis credential : isApiKeyAvailable w = true.

Local Abbreviation initialShots := (imap (initialShot w) shotConfigs).

Lemma final_shots :
  shots (ui (handleGenerate w s))
    = patches w image initialShots 0 <$> initialShots.
Proof.
  rewrite (handleGenerate_accepted w s image shotConfigs) by assumption.
  cbn [write ui shots setIsGenerating]. apply shots_after_turns.
Qed.

Lemma final_record (k : nat) (r : object) :
  shots (ui (handleGenerate w s)) !! k = Some r ->
  exists config,
    shotConfigs !! k = Some config /\
    r = patches w image initialShots 0 (initialShot w k config).
Proof.
  rewrite final_shots, list_lookup_fmap, list_lookup_imap.
  destruct (shotConfigs !! k) as [config |]; [| discriminate].
  intros H. injection H as <-. eauto.
Qed.

(** X16.  At the end of a run every record is either success with an
    image under the PNG prefix or error with a non-empty message, and its
    card shows exactly that: the picture, or the message of the failure;
    never the spinner, never the fallback text "Generation Failed". *)
Theorem run_ends_with_image_or_message (k : nat) (r : object) :
  shots (ui (handleGenerate w s)) !! k = Some r ->
  finished r /\
  ((exists uri, uri <> "" /\ r !! "imageUrl" = Some (JStr uri) /\
                image_area r = [Picture (Some (JStr uri))]) \/
   (exists m, m <> "" /\ r !! "error" = Some (JStr m) /\
              image_area r = [Failure (Some (JStr m))])).
Proof.
  intros Hr. destruct (final_record k r Hr) as (config & Hc & ->).
  assert (Hfin : finished (patches w image initialShots 0
                             (initialShot w k config))).
  { apply patches_finished. right. apply Exists_exists.
    exists (initialShot w k config). split.
    - apply list_elem_of_lookup. exists k.
      rewrite list_lookup_imap, Hc. reflexivity.
    - rewrite initialShot_same_id. apply String.eqb_refl. }
  split; [exact Hfin | apply finished_image_area, Hfin].
Qed.

(** X17.  The record of rank [k] at the end of a run carries the id drawn
    for rank [k] and every property of the k-th submitted shot other than
    [id], [status], [imageUrl] and [error]: the list keeps the order and
    the content of the submission. *)
Theorem run_keeps_submission (k : nat) (config : json) :
  shotConfigs !! k = Some config ->
  exists props r,
    config = JObj props /\
    shots (ui (handleGenerate w s)) !! k = Some r /\
    r !! "id" = Some (JStr (generateId w k)) /\
    (forall key, key <> "id" -> key <> "status" -> key <> "imageUrl" ->
       key <> "error" -> r !! key = props !! key).
Proof.
  intros Hc.
  assert (Hshot : is_shot config).
  { apply validate_accepts in accepted as [_ He].
    apply every_shot_true in He. rewrite Forall_lookup in He. eauto. }
  destruct Hshot as (props & -> & _).
  exists props, (patches w image initialShots 0 (initialShot w k (JObj props))).
  split; [reflexivity |]. split.
  { rewrite final_shots, list_lookup_fmap, list_lookup_imap, Hc.
    reflexivity. }
  split.
  - rewrite patches_frame by discriminate. apply initialShot_id.
  - intros key H1 H2 H3 H4. rewrite patches_frame by assumption.
    apply initialShot_config; assumption.
Qed.

(** X18.  When the ids of the run are pairwise distinct, the record of
    rank [k] at the end of the run is the pending record of rank [k]
    patched once, with the outcome of its own call: no other call of the
    run has touched it. *)
Theorem run_patches_each_record_once (k : nat) (config : json) :
  NoDup (run_ids w (length shotConfigs)) ->
  shotConfigs !! k = Some config ->
  shots (ui (handleGenerate w s)) !! k
    = Some (patched (initialShot w k config)
              (generateStoryboardFrame (service w) k image
                 (initialShot w k config))
              (initialShot w k config)).
Proof.
  intros Hnd Hc.
  set (shot := initialShot w k config).
  assert (Hshot : initialShots !! k = Some shot).
  { rewrite list_lookup_imap, Hc. reflexivity. }
  assert (Hlen : (k < length initialShots)%nat)
    by (eapply lookup_lt_Some; exact Hshot).
  assert (Hself : same_id shot shot = true).
  { unfold shot. rewrite initialShot_same_id. apply String.eqb_refl. }
  rewrite final_shots, list_lookup_fmap, Hshot.
  cbn [fmap option_fmap option_map]. f_equal.
  rewrite <- (take_drop (S k) initialShots) at 1.
  rewrite (take_S_r _ _ _ Hshot).
  rewrite !patches_app, length_app, !length_take_le by lia.
  cbn [Nat.add length].
  assert (Hbefore : patches w image (take k initialShots) 0 shot = shot).
  { apply patches_untouched.
    apply (initialShots_other_ids w shotConfigs k config shot _ 0
             Hnd Hc Hself).
    intros j x Hx. apply lookup_take_Some in Hx as [Hx Hjk].
    split; [exact Hx | cbn; lia]. }
  rewrite Hbefore. replace (k + 1)%nat with (S k) by lia.
  cbn [patches]. apply patches_untouched.
  apply (initialShots_other_ids w shotConfigs k config _ _ (S k) Hnd Hc).
  - rewrite patched_same_id. exact Hself.
  - intros j x Hx. rewrite lookup_drop in Hx. split; [exact Hx | lia].
Qed.

(** X19.  Records that were given the same id cannot be told apart by the
    updates: at the end of the run they have the same status, and the same
    image and message whenever the submitted shots agreed on those. *)
Theorem equal_ids_share_the_outcome (i j : nat) (ci cj : json)
    (ri rj : object) :
  shotConfigs !! i = Some ci -> shotConfigs !! j = Some cj ->
  generateId w i = generateId w j ->
  shots (ui (handleGenerate w s)) !! i = Some ri ->
  shots (ui (handleGenerate w s)) !! j = Some rj ->
  ri !! "status" = rj !! "status" /\
  (spread ci !! "imageUrl" = spread cj !! "imageUrl" ->
   ri !! "imageUrl" = rj !! "imageUrl") /\
  (spread ci !! "error" = spread cj !! "error" ->
   ri !! "error" = rj !! "error").
Proof.
  intros Hi Hj Hid Hri Hrj.
  destruct (final_record i ri Hri) as (ci' & Hi' & ->).
  destruct (final_record j rj Hrj) as (cj' & Hj' & ->).
  rewrite Hi in Hi'. injection Hi' as <-.
  rewrite Hj in Hj'. injection Hj' as <-.
  assert (Hids : initialShot w i ci !! "id" = initialShot w j cj !! "id")
    by (rewrite !initialShot_id, Hid; reflexivity).
  split; [| split].
  - apply patches_agree; [exact Hids |].
    unfold initialShot. rewrite !lookup_insert_eq. reflexivity.
  - intros H. apply patches_agree; [exact Hids |].
    unfold initialShot. rewrite !lookup_insert_ne by discriminate. exact H.
  - intros H. apply patches_agree; [exact Hids |].
    unfold initialShot. rewrite !lookup_insert_ne by discriminate. exact H.
Qed.

(** X20.  A run replaces what the page showed: its results depend on the
    reference image and on the text of the shot list, not on the results,
    the message or the busy flag the page had when it started. *)
Theorem run_replaces_previous_results (s' : Session) :
  refImage (ui s') = refImage (ui s) ->
  jsonInput (ui s') = jsonInput (ui s) ->
  shots (ui (handleGenerate w s')) = shots (ui (handleGenerate w s)) /\
  validationError (ui (handleGenerate w s')) = None.
Proof.
  intros Hr Hj.
  assert (Hr' : refImage (ui s') = Some image) by congruence.
  assert (Hv' : snd (validateAndParseJson w (ui s')) = Some shotConfigs).
  { rewrite (validate_reads_the_text_only w (ui s) (ui s') Hj). exact accepted. }
  rewrite final_shots.
  rewrite (handleGenerate_accepted w s' image shotConfigs) by assumption.
  cbn [write ui shots setIsGenerating validationError].
  split; [apply shots_after_turns |].
  destruct (loop_other_cells w image initialShots 0
              (write
                 (fun _ =>
                    setShots (fun _ => initialShots)
                      (setIsGenerating true
                         (setValidationError None (ui s')))) s'))
    as (_ & _ & _ & ->).
  reflexivity.
Qed.

(** X21.  From the moment the records are created until the last turn of
    the loop is over the busy flag is set, so the page does not offer Clear
    Session; once the run is over the flag is down and Clear Session is
    offered exactly when the list is not empty. *)
Theorem run_holds_the_busy_flag :
  (forall n : nat,
     isGenerating (ui (handleGenerate_turns n w s)) = true /\
     clear_offered (ui (handleGenerate_turns n w s)) = false /\
     empty_state (ui (handleGenerate_turns n w s)) = false) /\
  isGenerating (ui (handleGenerate w s)) = false /\
  clear_offered (ui (handleGenerate w s))
    = negb (Nat.eqb (length shotConfigs) 0) /\
  empty_state (ui (handleGenerate w s)) = Nat.eqb (length shotConfigs) 0.
Proof.
  split.
  - intros n.
    rewrite (handleGenerate_turns_accepted w s image shotConfigs)
      by assumption.
    unfold clear_offered, empty_state.
    destruct (loop_other_cells w image (take n initialShots) 0
                (write
                   (fun _ =>
                      setShots (fun _ => initialShots)
                        (setIsGenerating true
                           (setValidationError None (ui s)))) s))
      as (_ & _ & -> & _).
    cbn. rewrite !andb_false_r. auto.
  - unfold clear_offered, empty_state. rewrite final_shots.
    rewrite length_fmap, length_imap.
    rewrite (handleGenerate_accepted w s image shotConfigs) by assumption.
    cbn. rewrite !andb_true_r. auto.
Qed.

End FinishedRun.

Lemma run_ends_with_image_or_message_witness :
  exists r,
    shots (ui (handleGenerate
                 (Demo.world (Demo.service_failing_at 1 "503")
                             Demo.short_draws)
                 (Demo.session Demo.shots_text))) !! 0%nat = Some r /\
    finished r.
Proof.
  eexists. split; [vm_compute; reflexivity |].
  refine (proj1 (run_ends_with_image_or_message
                   (Demo.world (Demo.service_failing_at 1 "503")
                               Demo.short_draws)
                   (Demo.session Demo.shots_text) Demo.reference
                   [JObj Demo.wide_shot; JObj Demo.close_up]
                   _ _ _ _ 0%nat _ _)).
  - reflexivity.
  - discriminate.
  - vm_compute. reflexivity.
  - reflexivity.
  - vm_compute. reflexivity.
Defined.

Lemma run_keeps_submission_witness :
  exists props r,
    JObj Demo.close_up = JObj props /\
    shots (ui (handleGenerate
                 (Demo.world (Demo.service_failing_at 1 "503")
                             Demo.distinct_draws)
                 (Demo.session Demo.shots_text))) !! 1%nat = Some r /\
    r !! "id" = Some (JStr "g5y3us") /\
    r !! "aspect_ratio" = props !! "aspect_ratio".
Proof.
  destruct (run_keeps_submission
              (Demo.world (Demo.service_failing_at 1 "503")
                          Demo.distinct_draws)
              (Demo.session Demo.shots_text) Demo.reference
              [JObj Demo.wide_shot; JObj Demo.close_up])
    with (k := 1%nat) (config := JObj Demo.close_up)
    as (props & r & Hprops & Hr & Hid & Hkeys).
  - reflexivity.
  - discriminate.
  - vm_compute. reflexivity.
  - reflexivity.
  - reflexivity.
  - exists props, r. split; [exact Hprops |]. split; [exact Hr |].
    split; [exact Hid | apply Hkeys; discriminate].
Defined.

Lemma run_patches_each_record_once_witness :
  shots (ui (handleGenerate
               (Demo.world (Demo.service_failing_at 1 "503")
                           Demo.distinct_draws)
               (Demo.session Demo.shots_text))) !! 0%nat
  = Some (<["imageUrl" := JStr "data:image/png;base64,QUJD"]>
            (<["status" := JStr "SUCCESS"]>
               (<["status" := JStr "PENDING"]>
                  (<["id" := JStr "82mvyr"]> Demo.wide_shot)))).
Proof.
  rewrite (run_patches_each_record_once
             (Demo.world (Demo.service_failing_at 1 "503")
                         Demo.distinct_draws)
             (Demo.session Demo.shots_text) Demo.reference
             [JObj Demo.wide_shot; JObj Demo.close_up])
    with (k := 0%nat) (config := JObj Demo.wide_shot).
  - reflexivity.
  - reflexivity.
  - discriminate.
  - vm_compute. reflexivity.
  - reflexivity.
  - apply (bool_decide_unpack _). vm_compute. exact I.
  - reflexivity.
Defined.

Lemma equal_ids_share_the_outcome_witness :
  exists ri rj,
    shots (ui (handleGenerate
                 (Demo.world (Demo.service_failing_at 1 "503")
                             Demo.short_draws)
                 (Demo.session Demo.shots_text))) !! 0%nat = Some ri /\
    shots (ui (handleGenerate
                 (Demo.world (Demo.service_failing_at 1 "503")
                             Demo.short_draws)
                 (Demo.session Demo.shots_text))) !! 1%nat = Some rj /\
    ri !! "status" = rj !! "status".
Proof.
  eexists _, _. split; [vm_compute; reflexivity |].
  split; [vm_compute; reflexivity |].
  refine (proj1 (equal_ids_share_the_outcome
                   (Demo.world (Demo.service_failing_at 1 "503")
                               Demo.short_draws)
                   (Demo.session Demo.shots_text) Demo.reference
                   [JObj Demo.wide_shot; JObj Demo.close_up]
                   _ _ _ _ 0%nat 1%nat (JObj Demo.wide_shot)
                   (JObj Demo.close_up) _ _ _ _ _ _ _)).
  - reflexivity.
  - discriminate.
  - vm_compute. reflexivity.
  - reflexivity.
  - reflexivity.
  - reflexivity.
  - reflexivity.
  - vm_compute. reflexivity.
  - vm_compute. reflexivity.
Defined.

Lemma run_replaces_previous_results_witness :
  shots (ui (handleGenerate
               (Demo.world (Demo.service_failing_at 1 "503")
                           Demo.distinct_draws)
               (Samples.session_with_results Demo.shots_text)))
  = shots (ui (handleGenerate
                 (Demo.world (Demo.service_failing_at 1 "503")
                             Demo.distinct_draws)
                 (Demo.session Demo.shots_text))) /\
  validationError
    (ui (handleGenerate
           (Demo.world (Demo.service_failing_at 1 "503")
                       Demo.distinct_draws)
           (Samples.session_with_results Demo.shots_text))) = None.
Proof.
  apply (run_replaces_previous_results
           (Demo.world (Demo.service_failing_at 1 "503")
                       Demo.distinct_draws)
           (Demo.session Demo.shots_text) Demo.reference
           [JObj Demo.wide_shot; JObj Demo.close_up]).
  - reflexivity.
  - discriminate.
  - vm_compute. reflexivity.
  - reflexivity.
  - reflexivity.
  - reflexivity.
Defined.

Lemma run_holds_the_busy_flag_witness :
  clear_offered
    (ui (handleGenerate_turns 1
           (Demo.world (Demo.service_failing_at 1 "503")
                       Demo.distinct_draws)
           (Demo.session Demo.shots_text))) = false /\
  clear_offered
    (ui (handleGenerate
           (Demo.world (Demo.service_failing_at 1 "503")
                       Demo.distinct_draws)
           (Demo.session Demo.shots_text))) = true.
Proof.
  destruct (run_holds_the_busy_flag
              (Demo.world (Demo.service_failing_at 1 "503")
                          Demo.distinct_draws)
              (Demo.session Demo.shots_text) Demo.reference
              [JObj Demo.wide_shot; JObj Demo.close_up])
    as (Hturns & _ & Hclear & _).
  - reflexivity.
  - discriminate.
  - vm_compute. reflexivity.
  - reflexivity.
  - split; [exact (proj1 (proj2 (Hturns 1%nat))) | exact Hclear].
Defined.

(** X22.  The text of an empty array is accepted: the run makes no call
    and leaves an empty list of results, no message and the busy flag
    down; whatever the page showed before is gone. *)
Theorem empty_list_clears_the_results (w : World) (s : Session) :
  js_not (refImage (ui s)) = false ->
  JSON_parse w (jsonInput (ui s)) = Some (JArr []) ->
  isApiKeyAvailable w = true ->
  shots (ui (handleGenerate w s)) = [] /\
  trace (handleGenerate w s) = trace s /\
  validationError (ui (handleGenerate w s)) = None /\
  isGenerating (ui (handleGenerate w s)) = false /\
  empty_state (ui (handleGenerate w s)) = true.
Proof.
  intros Hr Hp Hk. unfold handleGenerate, handleGenerate_start.
  destruct (refImage (ui s)) as [image |]; [| discriminate].
  cbn in Hr. rewrite Hr. unfold validateAndParseJson. rewrite Hp. cbn.
  rewrite Hk. cbn. repeat split.
Qed.

Lemma empty_list_clears_the_results_witness :
  shots (ui (handleGenerate (Samples.world_parsing (JArr []))
               (Samples.session_with_results "[]"))) = [] /\
  trace (handleGenerate (Samples.world_parsing (JArr []))
           (Samples.session_with_results "[]")) = [].
Proof.
  destruct (empty_list_clears_the_results (Samples.world_parsing (JArr []))
              (Samples.session_with_results "[]"))
    as (Hshots & Htrace & _).
  - reflexivity.
  - reflexivity.
  - reflexivity.
  - split; [exact Hshots | exact Htrace].
Defined.

(** ** The card *)

(** X23.  The image area of a card never shows two things at once: for
    any record at most one of the spinner, the failure text and the picture
    is rendered, and nothing at all unless the status is one of [PENDING],
    [ERROR], [SUCCESS]; the spinner goes with [PENDING] only, the failure
    text with [ERROR] only, the picture with [SUCCESS] only. *)
Theorem card_shows_at_most_one (shot : object) :
  (length (image_area shot) <= 1)%nat /\
  (In Spinner (image_area shot) ->
   shot !! "status" = Some (status_value PENDING)) /\
  (forall text, In (Failure text) (image_area shot) ->
     shot !! "status" = Some (status_value ERROR)) /\
  (forall src, In (Picture src) (image_area shot) ->
     shot !! "status" = Some (status_value SUCCESS) /\
     src = shot !! "imageUrl" /\ truthy src = true) /\
  (image_area shot <> [] ->
   shot !! "status" = Some (status_value PENDING) \/
   shot !! "status" = Some (status_value ERROR) \/
   shot !! "status" = Some (status_value SUCCESS)).
Proof.
  unfold image_area, pending, isError, isSuccess.
  assert (Hcase :
    shot !! "status" = Some (status_value PENDING) \/
    shot !! "status" = Some (status_value ERROR) \/
    shot !! "status" = Some (status_value SUCCESS) \/
    (strict_equal (shot !! "status") (Some (status_value PENDING)) = false /\
     strict_equal (shot !! "status") (Some (status_value ERROR)) = false /\
     strict_equal (shot !! "status") (Some (status_value SUCCESS)) = false)).
  { destruct (shot !! "status") as [[| b | f | t | items | props] |];
      try (do 3 right; repeat split; reflexivity).
    cbn. destruct (String.eqb_spec t "PENDING") as [-> | H1]; [auto |].
    destruct (String.eqb_spec t "ERROR") as [-> | H2]; [auto |].
    destruct (String.eqb_spec t "SUCCESS") as [-> | H3]; [auto |].
    do 3 right. repeat split. }
  destruct Hcase as [Hs | [Hs | [Hs | (H1 & H2 & H3)]]].
  - rewrite Hs. cbn. split; [lia |]. split; [reflexivity |].
    split; [intros text [H | []]; discriminate |].
    split; [intros src [H | []]; discriminate | auto].
  - rewrite Hs. cbn. split; [lia |].
    split; [intros [H | []]; discriminate |].
    split; [reflexivity |].
    split; [intros src [H | []]; discriminate | auto].
  - rewrite Hs. cbn.
    destruct (truthy (shot !! "imageUrl")) eqn:Ht.
    + cbn. split; [lia |].
      split; [intros [H | []]; discriminate |].
      split; [intros text [H | []]; discriminate |].
      split; [| auto].
      intros src [H | []]. injection H as <-. auto.
    + assert (Hlen : forall l : list Shown,
                l = [] \/ (exists f, l = [Stray f]) ->
                (length l <= 1)%nat /\ ~ In Spinner l /\
                (forall text, ~ In (Failure text) l) /\
                (forall src, ~ In (Picture src) l)).
      { intros l [-> | [f ->]]; cbn; repeat split; try lia;
          try (intros [H | []]; discriminate); auto.
        all: intros x [H | []]; discriminate. }
      destruct (Hlen (match shot !! "imageUrl" with
                      | Some (JNum f) => [Stray f]
                      | _ => []
                      end)) as (L1 & L2 & L3 & L4).
      { destruct (shot !! "imageUrl") as [[| b | f | u | items | props] |];
          eauto. }
      split; [exact L1 |]. split; [intros H; destruct (L2 H) |].
      split; [intros text H; destruct (L3 text H) |].
      split; [intros src H; destruct (L4 src H) | auto].
  - rewrite H1, H2, H3. cbn. split; [lia |].
    split; [contradiction |]. split; [contradiction |].
    split; [contradiction | congruence].
Qed.

Example success_without_image_shows_nothing :
  image_area (<["status" := JStr "SUCCESS"]> Demo.wide_shot) = [] /\
  overlay (<["status" := JStr "SUCCESS"]> Demo.wide_shot) = true.
Proof. split; reflexivity. Qed.

Example error_without_message_shows_the_fallback :
  image_area (<["status" := JStr "ERROR"]> Demo.wide_shot)
  = [Failure (Some (JStr "Generation Failed"))].
Proof. reflexivity. Qed.

Lemma append_cancel_l (p a b : string) :
  (p ++ a)%string = (p ++ b)%string -> a = b.
Proof.
  induction p as [| c p IH]; cbn; [auto |].
  intros H. injection H as H. auto.
Qed.

Lemma length_append (a b : string) :
  String.length (a ++ b) = (String.length a + String.length b)%nat.
Proof. induction a as [| c a IH]; simpl; [reflexivity | now rewrite IH]. Qed.

Lemma append_cancel_r (a b q : string) :
  (a ++ q)%string = (b ++ q)%string -> a = b.
Proof.
  intros H.
  assert (Hlen : String.length a = String.length b).
  { apply (f_equal String.length) in H.
    rewrite !length_append in H. lia. }
  revert b H Hlen. induction a as [| c a IH]; intros [| d b] H Hlen;
    cbn in *; try discriminate; [reflexivity |].
  injection H as -> H. f_equal. apply IH; [exact H | lia].
Qed.

(** X24.  The names offered for download are those of the ranks counted
    from 1, and cards of different ranks get different names. *)
Theorem download_names_differ (i j : nat) :
  download_name i = download_name j <-> i = j.
Proof.
  split; [| intros ->; reflexivity].
  unfold download_name, decimal. intros H.
  apply append_cancel_l, append_cancel_r in H.
  assert (Hu : Nat.to_uint (i + 1) = Nat.to_uint (j + 1)).
  { pose proof (DecimalString.NilEmpty.usu (Nat.to_uint (i + 1))) as Hi.
    pose proof (DecimalString.NilEmpty.usu (Nat.to_uint (j + 1))) as Hj.
    rewrite H in Hi. congruence. }
  apply DecimalNat.Unsigned.to_uint_inj in Hu. lia.
Qed.

Example download_names_start_at_one :
  download_name 0 = "shot-1.png" /\ download_name 11 = "shot-12.png".
Proof. split; reflexivity. Qed.

(** ** Normalizer and client together *)



(** ** The pauses of a run *)

Lemma paused_app (t1 t2 : list Effect) :
  paused (t1 ++ t2)%list = paused t1 + paused t2.
Proof.
  unfold paused. induction t1 as [| e t1 IH]; cbn; [reflexivity |].
  destruct e; rewrite IH; lia.
Qed.

Lemma paused_turns (w : World) (image : string) (remaining : list object)
    (i : nat) :
  paused (concat (imap (fun k shot => turn w image (i + k) shot) remaining))
    = 1000 * Z.of_nat (length remaining).
Proof.
  revert i. induction remaining as [| shot rest IH]; intros i;
    [reflexivity |].
  rewrite imap_cons. cbn [concat]. rewrite paused_app.
  assert (Hrest : imap ((fun k shot0 => turn w image (i + k) shot0) ∘ S) rest
                  = imap (fun k shot0 => turn w image (S i + k) shot0) rest).
  { apply imap_ext. intros k x Hx. cbn. f_equal. lia. }
  rewrite Hrest, IH. cbn [length]. cbn. lia.
Qed.

Lemma last_turns (w : World) (image : string) (remaining : list object)
    (i : nat) :
  remaining <> [] ->
  last (concat (imap (fun k shot => turn w image (i + k) shot) remaining))
    = Some (Pause 1000).
Proof.
  revert i. induction remaining as [| shot rest IH]; intros i Hne;
    [contradiction |].
  rewrite imap_cons. cbn [concat].
  destruct rest as [| shot' rest].
  - reflexivity.
  - rewrite last_app.
    assert (Hrest : imap ((fun k shot0 => turn w image (i + k) shot0) ∘ S)
                      (shot' :: rest)
                    = imap (fun k shot0 => turn w image (S i + k) shot0)
                        (shot' :: rest)).
    { apply imap_ext. intros k x Hx. cbn. f_equal. lia. }
    rewrite Hrest, IH by discriminate. reflexivity.
Qed.

Section TimedRun.

Variables (w : World) (s : Session) (image : string)
          (shotConfigs : list json).
Hypothesis reference_loaded : refImage (ui s) = Some image.
Hypothesis reference_not_empty : image <> "".
Hypothesis accepted : snd (validateAndParseJson w (ui s)) = Some shotConfigs.
Hypothesis credential : isApiKeyAvailable w = true.

(** X26.  A run pauses one second after every call, the last one
    included: a run of N shots adds N seconds of pauses to the trace, and
    when N is not 0 the last thing it does before lowering the busy flag is
    a pause. *)
Theorem run_pauses_after_every_call :
  paused (trace (handleGenerate w s))
    = paused (trace s) + 1000 * Z.of_nat (length shotConfigs) /\
  length (calls (trace (handleGenerate w s)))
    = (length (calls (trace s)) + length shotConfigs)%nat /\
  (shotConfigs <> [] ->
   last (trace (handleGenerate w s)) = Some (Pause 1000)).
Proof.
  rewrite (handleGenerate_accepted w s image shotConfigs) by assumption.
  cbn [write trace]. rewrite loop_trace.
  rewrite paused_app, calls_app, length_app.
  rewrite (paused_turns w image _ 0), (calls_turns w image _ 0), length_imap.
  split; [reflexivity |]. split; [reflexivity |].
  intros Hne. rewrite last_app.
  rewrite (last_turns w image _ 0); [reflexivity |].
  destruct shotConfigs; [contradiction | discriminate].
Qed.

End TimedRun.

Lemma run_pauses_after_every_call_witness :
  paused (trace (handleGenerate
                   (Demo.world (Demo.service_failing_at 1 "503")
                               Demo.distinct_draws)
                   (Demo.session Demo.shots_text))) = 2000.
Proof.
  destruct (run_pauses_after_every_call
              (Demo.world (Demo.service_failing_at 1 "503")
                          Demo.distinct_draws)
              (Demo.session Demo.shots_text) Demo.reference
              [JObj Demo.wide_shot; JObj Demo.close_up])
    as (Hpaused & _).
  - reflexivity.
  - discriminate.
  - vm_compute. reflexivity.
  - reflexivity.
  - exact Hpaused.
Defined.

(** ** The page between two events *)

(** The three ways [handleGenerate] can go. *)
Lemma handleGenerate_cases (w : World) (s : Session) :
  handleGenerate w s = emit [Alert no_reference_message] s \/
  (exists msg, handleGenerate w s = write (setValidationError (Some msg)) s) \/
  (exists image shotConfigs,
     refImage (ui s) = Some image /\ image <> "" /\
     snd (validateAndParseJson w (ui s)) = Some shotConfigs /\
     isApiKeyAvailable w = true).
Proof.
  destruct (js_not (refImage (ui s))) eqn:Hr.
  - left. apply handleGenerate_no_reference, Hr.
  - right.
    destruct (snd (validateAndParseJson w (ui s))) as [parsed |] eqn:Hv.
    + destruct (isApiKeyAvailable w) eqn:Hk.
      * right. destruct (refImage (ui s)) as [image |] eqn:Hi;
          [| discriminate].
        exists image, parsed. cbn in Hr.
        repeat split; try assumption.
        intros ->. discriminate.
      * left. eexists. apply (handleGenerate_no_key w s parsed Hr Hv Hk).
    + left. destruct (handleGenerate_refused w s Hr Hv) as (msg & H & _).
      eauto.
Qed.

(** What every handler keeps. *)
Lemma dispatch_keeps (w : World) (default_text : string) (ev : UserEvent)
    (s : Session) :
  refImage (ui s) <> Some "" /\ Forall finished (shots (ui s)) /\
  isGenerating (ui s) = false ->
  refImage (ui (dispatch w default_text ev s)) <> Some "" /\
  Forall finished (shots (ui (dispatch w default_text ev s))) /\
  isGenerating (ui (dispatch w default_text ev s)) = false.
Proof.
  intros (Href & Hfin & Hbusy). destruct ev; cbn [dispatch].
  - unfold onReferenceRead. cbn.
    destruct result as [r |]; cbn; [| auto].
    destruct (String.eqb_spec r ""); cbn; [auto |].
    repeat split; [congruence | assumption | assumption].
  - cbn. repeat split; [discriminate | assumption | assumption].
  - unfold onJsonRead. destruct result as [t |]; cbn; [| auto].
    destruct (String.eqb t ""); cbn; auto.
  - cbn. auto.
  - cbn. auto.
  - destruct (handleGenerate_cases w s)
      as [-> | [(msg & ->) | (image & shotConfigs & Hi & Hne & Hv & Hk)]];
      [cbn; auto | cbn; auto |].
    rewrite (final_shots w s image shotConfigs Hi Hne Hv Hk).
    rewrite (handleGenerate_accepted w s image shotConfigs Hi Hne Hv Hk).
    cbn [write ui refImage isGenerating setIsGenerating].
    destruct (loop_other_cells w image (imap (initialShot w) shotConfigs) 0
                (write
                   (fun _ =>
                      setShots (fun _ => imap (initialShot w) shotConfigs)
                        (setIsGenerating true
                           (setValidationError None (ui s)))) s))
      as (-> & _).
    cbn. split; [exact Href |]. split; [| reflexivity].
    apply Forall_fmap, Forall_lookup. intros k r Hr. cbn.
    apply patches_finished. right. apply Exists_exists. exists r.
    split; [eapply list_elem_of_lookup_2; exact Hr |].
    rewrite list_lookup_imap in Hr.
    destruct (shotConfigs !! k) as [config |]; [| discriminate].
    injection Hr as <-. rewrite initialShot_same_id. apply String.eqb_refl.
  - cbn. repeat split; [assumption | constructor].
Qed.

(** X27.  Whatever the user does from the moment the page is mounted
    (reading files, editing or resetting the text, clearing the reference,
    Generate, Clear Session, in any order and number), once a handler is
    over: the reference image is never the empty string, the busy flag is
    down, and every record on the page is success with its image or error
    with its non-empty message. *)
Theorem page_invariant (w : World) (default_text : string)
    (evs : list UserEvent) :
  refImage (ui (after_events w default_text evs)) <> Some "" /\
  Forall finished (shots (ui (after_events w default_text evs))) /\
  isGenerating (ui (after_events w default_text evs)) = false.
Proof.
  unfold after_events.
  assert (Hgen : forall s,
            refImage (ui s) <> Some "" /\ Forall finished (shots (ui s)) /\
            isGenerating (ui s) = false ->
            let s' := fold_left (fun s ev => dispatch w default_text ev s)
                        evs s in
            refImage (ui s') <> Some "" /\ Forall finished (shots (ui s')) /\
            isGenerating (ui s') = false).
  { induction evs as [| ev evs IH]; intros s Hs; [exact Hs |].
    cbn. apply IH, dispatch_keeps, Hs. }
  apply Hgen. cbn. repeat split; [discriminate | constructor].
Qed.

Example generate_then_clear_then_generate :
  (fun r => r !! "status")
    <$> shots (ui (after_events
                     (Demo.world (Demo.service_failing_at 1 "503")
                                 Demo.distinct_draws)
                     Demo.shots_text
                     [GenerateClicked;
                      ReferenceRead (Some Demo.reference);
                      JsonRead (Some "");
                      GenerateClicked; ClearClicked;
                      JsonEdited Demo.one_shot_text; GenerateClicked]))
  = [Some (JStr "SUCCESS")].
Proof. vm_compute. reflexivity. Qed.
